(** * Contacts screen: analytics aggregation and page handlers

    A shallow embedding of
    - [src/components/contacts/ContactAnalyticsDashboard.tsx]
      (the [useMemo] aggregates, [fetchContacts] and what is rendered), and
    - [src/pages/Contacts.tsx] (page state, the handlers, the header and
      the main content area).

    Conventions of the embedding.
    - A JS [number] that holds a count or a counter is a [nat].  A
      contact's [score] is the rational value of its double ([Q]).
      Comparisons of scores are exact in binary64, so [scoreData] needs no
      more.  The average is computed by the code with binary64 [+] and
      [/], which round: [Dashboard.stats] is the computation in exact
      arithmetic, [Dashboard.stats_with] the same computation with the
      rounding made explicit, and [Binary64.avgScore] its evaluation on
      the machine's binary64 numbers.
    - An optional field ([string | undefined | null]) is an [option].
    - A plain object used as a string-keyed map is the list of its own
      properties in insertion order, on top of the members it inherits
      from [Object.prototype]; [Object.entries] lists array-index keys
      first, in ascending order, then the other keys in insertion order.
    - The objects and arrays the aggregates create and update live in a
      heap ([Heap]); the functions of [Dashboard] are what those programs
      compute.
    - Calls to the hosted backend, the audit logger, the toast sink and the
      console are recorded in a trace; what the backend and the audit logger
      answer is supplied by an environment. *)

From Stdlib Require Import String Ascii List Bool Arith ZArith NArith.
From Stdlib Require Import QArith Qround Qabs Lia Lqa Permutation.
From Stdlib Require Import Sorting.Sorted DecimalString.
From Stdlib Require Import PrimFloat FloatOps SpecFloat Uint63.
Import ListNotations.

Local Open Scope string_scope.
Local Open Scope list_scope.
Local Open Scope nat_scope.

(** ** JavaScript runtime helpers *)

Module JS.

(** [s || d] for an optional string: [undefined], [null] and the empty
    string are falsy. *)
Definition truthy_string (o : option string) : bool :=
  match o with
  | Some s => negb (String.eqb s "")
  | None => false
  end.

Definition string_or (o : option string) (d : string) : string :=
  match o with
  | Some s => if String.eqb s "" then d else s
  | None => d
  end.

(** [n || d] for an optional rational: a missing value and zero are
    falsy. *)
Definition number_or (o : option Q) (d : Q) : Q :=
  match o with
  | Some q => if Qeq_bool q 0 then d else q
  | None => d
  end.

(** [Math.round]: the nearest integer, a tie going to the larger one. *)
Definition Math_round (q : Q) : Z := Qfloor (q + (1 # 2)).

(** [Array.prototype.sort] with a comparator.  The sort is stable: an
    element moves behind a later one only when the comparator is
    positive on the pair. *)
Section Sort.
Context {A : Type} (cmp : A -> A -> Z).

Fixpoint sort_insert (x : A) (l : list A) : list A :=
  match l with
  | [] => [x]
  | y :: l' =>
      if (0 <? cmp x y)%Z then y :: sort_insert x l' else x :: l
  end.

Fixpoint Array_sort (l : list A) : list A :=
  match l with
  | [] => []
  | x :: l' => sort_insert x (Array_sort l')
  end.
End Sort.

(** [Array.prototype.slice(0, n)]. *)
Definition slice0 {A : Type} (n : nat) (l : list A) : list A := firstn n l.

(** A property key is an array index when it is the canonical decimal
    form of an integer below [2^32 - 1]. *)
Definition digit_of (a : ascii) : option N :=
  let n := N_of_ascii a in
  if ((48 <=? n) && (n <=? 57))%N then Some (n - 48)%N else None.

Fixpoint parse_digits (s : string) (acc : N) : option N :=
  match s with
  | EmptyString => Some acc
  | String a s' =>
      match digit_of a with
      | Some d => parse_digits s' (10 * acc + d)%N
      | None => None
      end
  end.

Definition array_index (s : string) : option N :=
  match s with
  | EmptyString => None
  | String a s' =>
      if Ascii.eqb a "0"%char
      then (if String.eqb s' "" then Some 0%N else None)
      else match parse_digits s 0 with
           | Some n => if (n <? 4294967295)%N then Some n else None
           | None => None
           end
  end.

Definition is_array_index (s : string) : bool :=
  match array_index s with Some _ => true | None => false end.

(** *** Plain objects used as maps from strings to counts *)

(** What such an object holds under a key: a count or, when the key names
    a member of [Object.prototype], the string the code builds from it. *)
Inductive Value : Type :=
| Num (n : nat)
| Str (s : string).

(** The own properties, in insertion order. *)
Definition Obj := list (string * Value).

(** The function-valued members of [Object.prototype], each with the name
    of the function it holds. *)
Definition prototype_functions : list (string * string) :=
  [ ("constructor", "Object");
    ("__defineGetter__", "__defineGetter__");
    ("__defineSetter__", "__defineSetter__");
    ("hasOwnProperty", "hasOwnProperty");
    ("__lookupGetter__", "__lookupGetter__");
    ("__lookupSetter__", "__lookupSetter__");
    ("isPrototypeOf", "isPrototypeOf");
    ("propertyIsEnumerable", "propertyIsEnumerable");
    ("toString", "toString");
    ("valueOf", "valueOf");
    ("toLocaleString", "toLocaleString") ].

(** [String(f)] for a built-in function (the spacing is the engine's; this
    is V8's). *)
Definition native_source (fname : string) : string :=
  ("function " ++ fname ++ "() { [native code] }")%string.

(** [String(Object.prototype[k])] when [k] names an inherited member:
    the functions above, and the accessor [__proto__], whose getter hands
    back [Object.prototype] itself. *)
Definition inherited (k : string) : option string :=
  if String.eqb k "__proto__" then Some "[object Object]"
  else
    match find (fun p => String.eqb (fst p) k) prototype_functions with
    | Some (_, fname) => Some (native_source fname)
    | None => None
    end.

(** The result of [o[k]]. *)
Inductive Lookup : Type :=
| Own (v : Value)
| Inherited (text : string)
| Undefined.

Fixpoint Obj_own (o : Obj) (k : string) : option Value :=
  match o with
  | [] => None
  | (k', v) :: o' => if String.eqb k' k then Some v else Obj_own o' k
  end.

(** [o[k]]: an own property first, then the prototype. *)
Definition Obj_get (o : Obj) (k : string) : Lookup :=
  match Obj_own o k with
  | Some v => Own v
  | None =>
      match inherited k with
      | Some text => Inherited text
      | None => Undefined
      end
  end.

(** Defining an own property: an own key keeps its place, a new key goes
    last. *)
Fixpoint Obj_define (o : Obj) (k : string) (v : Value) : Obj :=
  match o with
  | [] => [(k, v)]
  | (k', v') :: o' =>
      if String.eqb k' k then (k', v) :: o'
      else (k', v') :: Obj_define o' k v
  end.

(** [o[k] = v] for a number or a string [v]: the inherited members are
    writable and are shadowed by an own property, except [__proto__],
    whose setter ignores a value that is not an object. *)
Definition Obj_set (o : Obj) (k : string) (v : Value) : Obj :=
  if String.eqb k "__proto__" then o else Obj_define o k v.

(** [(x || 0) + 1]: a function or an object is truthy and [+] makes a
    string of it. *)
Definition or_zero_plus_one (x : Lookup) : Value :=
  match x with
  | Own (Num n) => Num ((if n =? 0 then 0 else n) + 1)
  | Own (Str s) => if String.eqb s "" then Num (0 + 1) else Str (s ++ "1")
  | Inherited text => Str (text ++ "1")
  | Undefined => Num (0 + 1)
  end.

(** [Number(v)]: the strings built above are no numerals. *)
Definition to_number (v : Value) : option Z :=
  match v with
  | Num n => Some (Z.of_nat n)
  | Str _ => None
  end.

Definition index_of (e : string * Value) : Z :=
  match array_index (fst e) with
  | Some n => Z.of_N n
  | None => 0%Z
  end.

Definition Object_entries (o : Obj) : list (string * Value) :=
  Array_sort (fun a b => (index_of a - index_of b)%Z)
             (filter (fun e => is_array_index (fst e)) o)
  ++ filter (fun e => negb (is_array_index (fst e))) o.

End JS.


(** ** Effects: state, a trace of calls to the collaborators, exceptions *)

Module Eff.

(** What leaves the component: requests to the hosted backend, the audit
    logger, the toast sink and the console. *)
Inductive Effect : Type :=
| BackendDelete (table column : string) (ids : list string)
| BackendSelect (table columns order : string)
| AuditBulkDelete (table : string) (count : nat) (ids : list string)
| Toast (title description : string) (variant : option string)
| ConsoleError (message : string) (err : string).

(** How an awaited call or a block ends. *)
Inductive Completion (A : Type) : Type :=
| Normal (a : A)
| Throw (e : string).
Arguments Normal {A} a.
Arguments Throw {A} e.

(** The answer of the backend client: [{ data, error }]. *)
Record Response (A : Type) : Type := mkResponse {
  data : option A;
  error : option string
}.
Arguments mkResponse {A} data error.
Arguments data {A} r.
Arguments error {A} r.

Definition M (S A : Type) : Type :=
  S -> list Effect -> Completion A * S * list Effect.

Definition ret {S A} (a : A) : M S A := fun s tr => (Normal a, s, tr).

Definition bind {S A B} (m : M S A) (k : A -> M S B) : M S B :=
  fun s tr =>
    match m s tr with
    | (Normal a, s', tr') => k a s' tr'
    | (Throw e, s', tr') => (Throw e, s', tr')
    end.

Definition throw {S A} (e : string) : M S A := fun s tr => (Throw e, s, tr).

Definition get {S} : M S S := fun s tr => (Normal s, s, tr).

Definition modify {S} (f : S -> S) : M S unit :=
  fun s tr => (Normal tt, f s, tr).

Definition emit {S} (e : Effect) : M S unit :=
  fun s tr => (Normal tt, s, tr ++ [e]).

(** A call to a collaborator: the request is recorded, then the call ends
    as the environment says. *)
Definition call {S A} (e : Effect) (answer : Completion A) : M S A :=
  fun s tr => (answer, s, tr ++ [e]).

(** [try { body } catch (e) { handler }]. *)
Definition try_catch {S A} (body : M S A) (handler : string -> M S A)
  : M S A :=
  fun s tr =>
    match body s tr with
    | (Normal a, s', tr') => (Normal a, s', tr')
    | (Throw e, s', tr') => handler e s' tr'
    end.

(** [try { body } finally { final }]. *)
Definition try_finally {S A} (body : M S A) (final : M S unit) : M S A :=
  fun s tr =>
    match body s tr with
    | (c, s', tr') =>
        match final s' tr' with
        | (Normal _, s'', tr'') => (c, s'', tr'')
        | (Throw e, s'', tr'') => (Throw e, s'', tr'')
        end
    end.

(** Running a handler from a state, with an empty trace. *)
Definition run {S A} (m : M S A) (s : S) : Completion A * S * list Effect :=
  m s [].

Definition state_after {S A} (m : M S A) (s : S) : S := snd (fst (run m s)).
Definition trace_of {S A} (m : M S A) (s : S) : list Effect := snd (run m s).
Definition completion_of {S A} (m : M S A) (s : S) : Completion A :=
  fst (fst (run m s)).

(** Reading a trace: the backend requests and the toasts in it. *)
Definition is_delete_request (e : Effect) : bool :=
  match e with BackendDelete _ _ _ => true | _ => false end.

Definition is_backend_request (e : Effect) : bool :=
  match e with
  | BackendDelete _ _ _ | BackendSelect _ _ _ => true
  | _ => false
  end.

Definition is_toast (e : Effect) : bool :=
  match e with Toast _ _ _ => true | _ => false end.

End Eff.

Notation "x <- m ;; k" := (Eff.bind m (fun x => k))
  (at level 61, m at next level, right associativity).
Notation "m ;;; k" := (Eff.bind m (fun _ => k))
  (at level 61, right associativity).

(** ** The analytics dashboard *)

Module Dashboard.
Import JS Eff.

Record Contact : Type := mkContact {
  id : string;
  contact_name : string;
  company_name : option string;
  contact_source : option string;
  industry : option string;
  region : option string;
  segment : option string;
  score : option Q
}.

(** *** Component state and [fetchContacts] *)

Record State : Type := mkState {
  contacts : list Contact;
  loading : bool
}.

Definition initial : State := {| contacts := []; loading := true |}.

Definition setContacts (l : list Contact) : M State unit :=
  modify (fun s => {| contacts := l; loading := loading s |}).

Definition setLoading (b : bool) : M State unit :=
  modify (fun s => {| contacts := contacts s; loading := b |}).

(** The backend as seen by the dashboard: the answer to
    [from(table).select(columns).order(order)]. *)
Definition SelectBackend : Type :=
  string -> string -> string -> Completion (Response (list Contact)).

Definition select_columns : string :=
  "id, contact_name, company_name, contact_source, industry, region, segment, score".

Definition fetchContacts (supabase : SelectBackend) : M State unit :=
  setLoading true ;;;
  try_finally
    (try_catch
       (r <- call (BackendSelect "contacts" select_columns "contact_name")
                  (supabase "contacts" select_columns "contact_name") ;;
        match error r with
        | Some e => throw e
        | None =>
            setContacts (match data r with Some rows => rows | None => [] end)
        end)
       (fun e => emit (ConsoleError "Error fetching contacts:" e)))
    (setLoading false).

(** *** Summary statistics

    [stats] computes the average in exact arithmetic. *)

Record Stats : Type := mkStats {
  totalContacts : nat;
  avgScore : Z;
  withCompany : nat;
  withSource : nat
}.

Definition score_or_0 (c : Contact) : Q := number_or (score c) 0.

Definition stats (contacts : list Contact) : Stats :=
  {| totalContacts := length contacts;
     avgScore :=
       if (0 <? length contacts)%nat
       then Math_round
              (fold_left (fun sum c => (sum + score_or_0 c)%Q) contacts 0%Q
               / inject_Z (Z.of_nat (length contacts)))%Q
       else 0%Z;
     withCompany :=
       length (filter (fun c => truthy_string (company_name c)) contacts);
     withSource :=
       length (filter (fun c => truthy_string (contact_source c)) contacts) |}.

(** The same computation with the rounding of binary64 written out: [fl]
    rounds the exact result of each [+] and of the [/].  The counts are
    integers and are exact. *)
Definition avgScore_with (fl : Q -> Q) (contacts : list Contact) : Z :=
  if (0 <? length contacts)%nat
  then Math_round
         (fl (fold_left (fun sum c => fl (sum + score_or_0 c)%Q) contacts 0%Q
              / inject_Z (Z.of_nat (length contacts)))%Q)
  else 0%Z.

Definition stats_with (fl : Q -> Q) (contacts : list Contact) : Stats :=
  {| totalContacts := length contacts;
     avgScore := avgScore_with fl contacts;
     withCompany :=
       length (filter (fun c => truthy_string (company_name c)) contacts);
     withSource :=
       length (filter (fun c => truthy_string (contact_source c)) contacts) |}.

(** *** Grouped frequency tables *)

(** The body of the three [forEach] loops: [o[k] = (o[k] || 0) + 1]. *)
Definition tally_step (key : Contact -> string) (o : Obj) (c : Contact)
  : Obj :=
  let k := key c in Obj_set o k (or_zero_plus_one (Obj_get o k)).

Definition tally (key : Contact -> string) (contacts : list Contact) : Obj :=
  fold_left (tally_step key) contacts [].

Definition source_key (c : Contact) : string :=
  string_or (contact_source c) "Unknown".
Definition industry_key (c : Contact) : string :=
  string_or (industry c) "Unknown".
Definition segment_key (c : Contact) : string :=
  string_or (segment c) "Prospect".

(** An entry [{ name, value }] of a group table. *)
Definition Group : Type := (string * Value)%type.
Definition group_name (g : Group) : string := fst g.
Definition group_value (g : Group) : Value := snd g.

(** An entry [{ name, count }] of the score table. *)
Definition Entry : Type := (string * nat)%type.
Definition name (e : Entry) : string := fst e.
Definition value (e : Entry) : nat := snd e.

Definition sourceData (contacts : list Contact) : list Group :=
  Object_entries (tally source_key contacts).

(** The [industries] object before it is sorted and cut. *)
Definition industries (contacts : list Contact) : Obj :=
  tally industry_key contacts.

(** [b.value - a.value]; when it is NaN the sort takes it as 0.  (With
    such a comparator the order that results is left to the engine; the
    properties about the order below are about tables of counts.) *)
Definition by_value_desc (a b : Group) : Z :=
  match to_number (group_value b), to_number (group_value a) with
  | Some y, Some x => (y - x)%Z
  | _, _ => 0%Z
  end.

Definition industryData (contacts : list Contact) : list Group :=
  slice0 8 (Array_sort by_value_desc (Object_entries (industries contacts))).

Definition segmentData (contacts : list Contact) : list Group :=
  Object_entries (tally segment_key contacts).

(** *** Score distribution *)

Record Range : Type := mkRange {
  range : string;
  min : Q;
  max : Q;
  count : nat
}.

Definition ranges0 : list Range :=
  [ mkRange "0-20" 0 20 0;
    mkRange "21-40" 21 40 0;
    mkRange "41-60" 41 60 0;
    mkRange "61-80" 61 80 0;
    mkRange "81-100" 81 100 0 ].

Definition in_range (score : Q) (r : Range) : bool :=
  Qle_bool (min r) score && Qle_bool score (max r).

(** [ranges.find(...)] hands back the first matching element of the array
    itself, so [range.count++] updates that element in place. *)
Fixpoint find_incr (score : Q) (rs : list Range) : list Range :=
  match rs with
  | [] => []
  | r :: rs' =>
      if in_range score r
      then mkRange (range r) (min r) (max r) (count r + 1) :: rs'
      else r :: find_incr score rs'
  end.

Definition scoreData (contacts : list Contact) : list Entry :=
  let ranges :=
    fold_left (fun rs c => find_incr (score_or_0 c) rs) contacts ranges0 in
  map (fun r => (range r, count r)) ranges.

End Dashboard.

(** ** The contacts page *)

Module Page.
Import JS Eff.

Record State : Type := mkState {
  viewMode : string;
  showColumnCustomizer : bool;
  showModal : bool;
  selectedContacts : list string;
  refreshTrigger : nat
}.

(** The [useState] initial values. *)
Definition initial : State :=
  {| viewMode := "table";
     showColumnCustomizer := false;
     showModal := false;
     selectedContacts := [];
     refreshTrigger := 0 |}.

Definition setViewMode (v : string) : M State unit :=
  modify (fun s => mkState v (showColumnCustomizer s) (showModal s)
                           (selectedContacts s) (refreshTrigger s)).

Definition setShowColumnCustomizer (b : bool) : M State unit :=
  modify (fun s => mkState (viewMode s) b (showModal s)
                           (selectedContacts s) (refreshTrigger s)).

Definition setShowModal (b : bool) : M State unit :=
  modify (fun s => mkState (viewMode s) (showColumnCustomizer s) b
                           (selectedContacts s) (refreshTrigger s)).

Definition setSelectedContacts (l : list string) : M State unit :=
  modify (fun s => mkState (viewMode s) (showColumnCustomizer s) (showModal s)
                           l (refreshTrigger s)).

(** The updater form, [setRefreshTrigger(prev => ...)]. *)
Definition setRefreshTrigger (f : nat -> nat) : M State unit :=
  modify (fun s => mkState (viewMode s) (showColumnCustomizer s) (showModal s)
                           (selectedContacts s) (f (refreshTrigger s))).

Definition onRefresh : M State unit :=
  setRefreshTrigger (fun prev => prev + 1).

(** The collaborators of [handleBulkDelete]: the answer of
    [from(table).delete().in(column, ids)] and the end of
    [logBulkDelete(table, count, ids)]. *)
Record Env : Type := mkEnv {
  supabase_delete_in :
    string -> string -> list string -> Completion (Response unit);
  logBulkDelete : string -> nat -> list string -> Completion unit
}.

Definition string_of_nat (n : nat) : string :=
  NilEmpty.string_of_uint (Nat.to_uint n).

Definition success_toast (n : nat) : Effect :=
  Toast "Success"
        (string_of_nat n ++ " contacts deleted successfully")%string
        None.

Definition error_toast : Effect :=
  Toast "Error" "Failed to delete contacts" (Some "destructive").

Definition handleBulkDelete (env : Env) : M State unit :=
  s <- get ;;
  let selected := selectedContacts s in
  if length selected =? 0 then ret tt
  else
    try_catch
      (r <- call (BackendDelete "contacts" "id" selected)
                 (supabase_delete_in env "contacts" "id" selected) ;;
       match error r with
       | Some e => throw e
       | None =>
           call (AuditBulkDelete "contacts" (length selected) selected)
                (logBulkDelete env "contacts" (length selected) selected) ;;;
           emit (success_toast (length selected)) ;;;
           setSelectedContacts [] ;;;
           setRefreshTrigger (fun prev => prev + 1)
       end)
      (fun _ => emit error_toast).

(** What the collaborators answer to the calls of [handleBulkDelete]. *)
Definition delete_reports_no_error (env : Env) (ids : list string) : bool :=
  match supabase_delete_in env "contacts" "id" ids with
  | Normal r => match error r with None => true | Some _ => false end
  | Throw _ => false
  end.

Definition audit_completes (env : Env) (ids : list string) : bool :=
  match logBulkDelete env "contacts" (length ids) ids with
  | Normal _ => true
  | Throw _ => false
  end.

(** *** The main content area *)

Record ContactTableProps : Type := mkProps {
  p_showColumnCustomizer : bool;
  p_showModal : bool;
  p_selectedContacts : list string;
  p_refreshTrigger : nat
}.

Inductive Element : Type :=
| ContactAnalyticsDashboard
| ContactTable (props : ContactTableProps).

Definition table_props (s : State) : ContactTableProps :=
  {| p_showColumnCustomizer := showColumnCustomizer s;
     p_showModal := showModal s;
     p_selectedContacts := selectedContacts s;
     p_refreshTrigger := refreshTrigger s |}.

(** [viewMode === 'analytics' ? <ContactAnalyticsDashboard /> : <ContactTable ... />] *)
Definition main_content (s : State) : Element :=
  if String.eqb (viewMode s) "analytics"
  then ContactAnalyticsDashboard
  else ContactTable (table_props s).

(** *** Events of the page and the states they reach

    The two view buttons, the menu items and the Add Contact button, the
    setters handed to the contact table, and [onRefresh], the one thing
    the import hook is given.  [handleImportClick], [handleImportCSV] and
    [handleExport] touch the page state in no other way. *)

Inductive Event : Type :=
| ClickList
| ClickAnalytics
| ClickColumns
| ClickAddContact
| ClickDeleteSelected
| ImportRefresh
| TableSetShowColumnCustomizer (b : bool)
| TableSetShowModal (b : bool)
| TableSetSelectedContacts (l : list string).

Definition handle (env : Env) (ev : Event) : M State unit :=
  match ev with
  | ClickList => setViewMode "table"
  | ClickAnalytics => setViewMode "analytics"
  | ClickColumns => setShowColumnCustomizer true
  | ClickAddContact => setShowModal true
  | ClickDeleteSelected => handleBulkDelete env
  | ImportRefresh => onRefresh
  | TableSetShowColumnCustomizer b => setShowColumnCustomizer b
  | TableSetShowModal b => setShowModal b
  | TableSetSelectedContacts l => setSelectedContacts l
  end.

Inductive reachable : State -> Prop :=
| reach_initial : reachable initial
| reach_step (s : State) (env : Env) (ev : Event) :
    reachable s -> reachable (state_after (handle env ev) s).

End Page.

(** ** The aggregates as the programs they are

    The [useMemo] callbacks create objects and arrays and update them in
    place.  Here they run on a heap that may already hold anything, such
    as what earlier runs left behind. *)

Module Heap.
Import JS Dashboard.

Inductive HeapObject : Type :=
| HObject (o : Obj)
| HRange (r : Range)
| HArray (elems : list nat).

(** A reference is a position in the heap. *)
Definition Heap : Type := list HeapObject.

Definition Comp (A : Type) : Type := Heap -> A * Heap.

Definition ret {A} (a : A) : Comp A := fun h => (a, h).

Definition bind {A B} (m : Comp A) (k : A -> Comp B) : Comp B :=
  fun h => let (a, h') := m h in k a h'.

Definition alloc (x : HeapObject) : Comp nat :=
  fun h => (length h, h ++ [x]).

Definition load (ref : nat) : Comp (option HeapObject) :=
  fun h => (nth_error h ref, h).

Fixpoint update (ref : nat) (x : HeapObject) (h : Heap) : Heap :=
  match h, ref with
  | [], _ => []
  | _ :: h', 0 => x :: h'
  | y :: h', S ref' => y :: update ref' x h'
  end.

Definition store (ref : nat) (x : HeapObject) : Comp unit :=
  fun h => (tt, update ref x h).

End Heap.

Notation "x <~ m ;; k" := (Heap.bind m (fun x => k))
  (at level 61, m at next level, right associativity).

Module Programs.
Import JS Dashboard Heap.

(** [array.forEach(f)]. *)
Fixpoint forEach {A : Type} (f : A -> Comp unit) (l : list A) : Comp unit :=
  match l with
  | [] => ret tt
  | a :: l' => _ <~ f a ;; forEach f l'
  end.

(** An array literal of object literals. *)
Fixpoint alloc_all (xs : list HeapObject) : Comp (list nat) :=
  match xs with
  | [] => ret []
  | x :: xs' => ref <~ alloc x ;; refs <~ alloc_all xs' ;; ret (ref :: refs)
  end.

(** [const o = {}; contacts.forEach(c => { const k = key(c);
    o[k] = (o[k] || 0) + 1; })]. *)
Definition tally_loop (key : Contact -> string) (obj : nat)
  (contacts : list Contact) : Comp unit :=
  forEach (fun c =>
             let k := key c in
             x <~ load obj ;;
             match x with
             | Some (HObject o) =>
                 store obj
                       (HObject (Obj_set o k (or_zero_plus_one (Obj_get o k))))
             | _ => ret tt
             end) contacts.

Definition entries_of (obj : nat) : Comp (list Group) :=
  x <~ load obj ;;
  ret (match x with
       | Some (HObject o) => Object_entries o
       | _ => []
       end).

Definition group_table (key : Contact -> string) (contacts : list Contact)
  : Comp (list Group) :=
  obj <~ alloc (HObject []) ;;
  _ <~ tally_loop key obj contacts ;;
  entries_of obj.

Definition sourceData (contacts : list Contact) : Comp (list Group) :=
  group_table source_key contacts.

Definition industryData (contacts : list Contact) : Comp (list Group) :=
  entries <~ group_table industry_key contacts ;;
  ret (slice0 8 (Array_sort by_value_desc entries)).

Definition segmentData (contacts : list Contact) : Comp (list Group) :=
  group_table segment_key contacts.

(** [ranges.find(r => score >= r.min && score <= r.max)]: the reference
    of the first element that matches. *)
Fixpoint find_ref (score : Q) (refs : list nat) : Comp (option nat) :=
  match refs with
  | [] => ret None
  | ref :: refs' =>
      x <~ load ref ;;
      match x with
      | Some (HRange r) =>
          if in_range score r then ret (Some ref) else find_ref score refs'
      | _ => find_ref score refs'
      end
  end.

(** [range.count++]. *)
Definition increment_count (ref : nat) : Comp unit :=
  x <~ load ref ;;
  match x with
  | Some (HRange r) =>
      store ref (HRange (mkRange (range r) (min r) (max r) (count r + 1)))
  | _ => ret tt
  end.

Definition count_score (refs : list nat) (c : Contact) : Comp unit :=
  found <~ find_ref (score_or_0 c) refs ;;
  match found with
  | Some ref => increment_count ref
  | None => ret tt
  end.

(** [ranges.map(r => ({ name: r.range, count: r.count }))]. *)
Fixpoint read_ranges (refs : list nat) : Comp (list Entry) :=
  match refs with
  | [] => ret []
  | ref :: refs' =>
      x <~ load ref ;;
      rest <~ read_ranges refs' ;;
      ret (match x with
           | Some (HRange r) => (range r, count r) :: rest
           | _ => rest
           end)
  end.

Definition elements (arr : nat) : Comp (list nat) :=
  x <~ load arr ;;
  ret (match x with Some (HArray refs) => refs | _ => [] end).

Definition scoreData (contacts : list Contact) : Comp (list Entry) :=
  refs <~ alloc_all (map HRange ranges0) ;;
  ranges <~ alloc (HArray refs) ;;
  _ <~ forEach (fun c => rs <~ elements ranges ;; count_score rs c) contacts ;;
  rs <~ elements ranges ;;
  read_ranges rs.

(** What one rendering derives from the contacts. *)
Record Aggregates : Type := mkAggregates {
  a_stats : Stats;
  a_source : list Group;
  a_industry : list Group;
  a_segment : list Group;
  a_score : list Entry
}.

(** The five memoised values, computed one after the other; [stats] uses
    [reduce] and [filter] and updates nothing. *)
Definition aggregates (fl : Q -> Q) (contacts : list Contact)
  : Comp Aggregates :=
  source <~ sourceData contacts ;;
  industry <~ industryData contacts ;;
  segment <~ segmentData contacts ;;
  score <~ scoreData contacts ;;
  ret (mkAggregates (stats_with fl contacts) source industry segment score).

End Programs.

(** ** The average on the machine's binary64 numbers *)

Module Binary64.
Import JS Dashboard.

(** The double of an integer (exact below [2^53] in absolute value). *)
Definition of_Z (z : Z) : float :=
  if (z <? 0)%Z
  then PrimFloat.opp (PrimFloat.of_uint63 (Uint63.of_Z (- z)))
  else PrimFloat.of_uint63 (Uint63.of_Z z).

(** The double of a score: [q] itself when [q] is a double whose numerator
    and denominator stay below [2^63]. *)
Definition of_Q (q : Q) : float :=
  PrimFloat.div (of_Z (Qnum q)) (of_Z (Zpos (Qden q))).

(** The rational value of a finite double. *)
Definition to_Q (x : float) : option Q :=
  match Prim2SF x with
  | S754_zero _ => Some 0%Q
  | S754_finite s m e =>
      Some (inject_Z (if s then Zneg m else Zpos m) * Qpower 2 e)%Q
  | _ => None
  end.

(** [q] is the value of a double. *)
Definition is_double (q : Q) : bool :=
  match to_Q (of_Q q) with
  | Some q' => Qeq_bool q' q
  | None => false
  end.

(** [Math.round(contacts.reduce((sum, c) => sum + (c.score || 0), 0) /
    contacts.length)], or 0 for the empty list. *)
Definition avgScore (contacts : list Contact) : option Z :=
  if (0 <? length contacts)%nat
  then option_map Math_round
         (to_Q (PrimFloat.div
                  (fold_left (fun sum c =>
                                PrimFloat.add sum (of_Q (score_or_0 c)))
                             contacts PrimFloat.zero)
                  (of_Z (Z.of_nat (length contacts)))))
  else Some 0%Z.

End Binary64.

(** ** Vocabulary of the specification *)

Module Spec.
Import JS Eff Dashboard.

(** The sum of the counts of a table. *)
Definition total (l : list Entry) : nat := list_sum (map value l).

(** How many contacts fall in the group [k]. *)
Definition occurrences (key : Contact -> string) (k : string)
  (contacts : list Contact) : nat :=
  length (filter (fun c => String.eqb (key c) k) contacts).

(** A contact's score, a missing score being 0. *)
Definition score_of (c : Contact) : Q :=
  match score c with Some q => q | None => 0%Q end.

Definition arithmetic_mean (contacts : list Contact) : Q :=
  (fold_right Qplus 0 (map score_of contacts)
   / inject_Z (Z.of_nat (length contacts)))%Q.

(** [z] is an integer nearest to [q]. *)
Definition nearest_integer (z : Z) (q : Q) : Prop :=
  forall z' : Z, (Qabs (inject_Z z - q) <= Qabs (inject_Z z' - q))%Q.

(** How many contacts have a score between [lo] and [hi], both included. *)
Definition count_between (lo hi : Q) (contacts : list Contact) : nat :=
  length (filter (fun c => Qle_bool lo (score_or_0 c)
                           && Qle_bool (score_or_0 c) hi) contacts).

(** The contact's score lies in one of the five ranges. *)
Definition in_some_range (c : Contact) : bool :=
  existsb (in_range (score_or_0 c)) ranges0.

(** The score lies in no range: below 0, above 100, or strictly between
    the upper bound of a range and the lower bound of the next one. *)
Definition in_a_gap (q : Q) : Prop :=
  (q < 0 \/ 100 < q \/ (20 < q /\ q < 21) \/ (40 < q /\ q < 41)
   \/ (60 < q /\ q < 61) \/ (80 < q /\ q < 81))%Q.

Definition between (lo hi q : Q) : bool := Qle_bool lo q && Qle_bool q hi.

(** A score lies in at most one range. *)
Inductive Bucket (q : Q) : bool -> bool -> bool -> bool -> bool -> Prop :=
| InFirst : (0 <= q <= 20)%Q -> Bucket q true false false false false
| InSecond : (21 <= q <= 40)%Q -> Bucket q false true false false false
| InThird : (41 <= q <= 60)%Q -> Bucket q false false true false false
| InFourth : (61 <= q <= 80)%Q -> Bucket q false false false true false
| InFifth : (81 <= q <= 100)%Q -> Bucket q false false false false true
| InNone : in_a_gap q -> Bucket q false false false false false.

(** The count an entry of a group table carries (0 when its value is no
    count). *)
Definition count_of (g : Group) : nat :=
  match group_value g with
  | Num n => n
  | Str _ => 0
  end.

(** The sum of the values of a group table, when they are all counts. *)
Definition total_counts (l : list Group) : option nat :=
  fold_right (fun g acc =>
                match group_value g, acc with
                | Num n, Some t => Some (n + t)
                | _, _ => None
                end) (Some 0) l.

(** No contact's group name is the name of a member of
    [Object.prototype]. *)
Definition plain_names (key : Contact -> string) (contacts : list Contact)
  : Prop :=
  Forall (fun c => inherited (key c) = None) contacts.

(** [n] times the character 1. *)
Fixpoint ones (n : nat) : string :=
  match n with
  | 0 => ""
  | S n' => (ones n' ++ "1")%string
  end.

(** What a group table holds for a group of [n] contacts named [k]. *)
Definition expected_value (k : string) (n : nat) : Value :=
  match inherited k with
  | None => Num n
  | Some text => Str (text ++ ones n)
  end.

Definition is_count (g : Group) : bool :=
  match group_value g with
  | Num _ => true
  | Str _ => false
  end.


(** A rounding of the rationals that, like the rounding to nearest of
    binary64, keeps the order (stated here between [-2^53] and [2^53], far
    from overflow) and leaves alone every [m / 2^j] with [|m| < 2^53] (in
    the range of the normal and subnormal numbers). *)
Definition monotone (fl : Q -> Q) : Prop :=
  forall x y : Q,
    (- (9007199254740992) <= x)%Q -> (x <= y)%Q ->
    (y <= 9007199254740992)%Q -> (fl x <= fl y)%Q.

Definition exact_on_binary64 (fl : Q -> Q) : Prop :=
  forall (m : Z) (j : nat),
    (Z.abs m < 2 ^ 53)%Z -> j <= 1074 ->
    (fl (inject_Z m / inject_Z (2 ^ Z.of_nat j)) ==
     inject_Z m / inject_Z (2 ^ Z.of_nat j))%Q.

(** A score is missing or an integer between 0 and 100. *)
Definition score_is_percent (c : Contact) : Prop :=
  match score c with
  | Some q => exists z : Z, (0 <= z <= 100)%Z /\ (q == inject_Z z)%Q
  | None => True
  end.

End Spec.

(** ** Sample inputs *)

Module Samples.
Import JS Eff Dashboard.

Definition with_industry (i : string) : Contact :=
  mkContact i i None None (Some i) None None None.

Definition with_score (q : Q) : Contact :=
  mkContact "c" "c" None None None None None (Some q).

Definition unscored : Contact :=
  mkContact "u" "u" None None None None None None.

Definition nine_industries : list Contact :=
  map with_industry ["a"; "b"; "c"; "d"; "e"; "f"; "g"; "h"; "i"].

Definition three_scored : list Contact :=
  [with_score 10; with_score 25; unscored].

Definition two_selected : Page.State :=
  Page.mkState "table" false false ["c1"; "c2"] 3.

Definition no_error : Response unit := mkResponse None None.

Definition env_ok : Page.Env :=
  Page.mkEnv (fun _ _ _ => Normal no_error) (fun _ _ _ => Normal tt).

Definition env_delete_error : Page.Env :=
  Page.mkEnv (fun _ _ _ => Normal (mkResponse None (Some "permission denied")))
             (fun _ _ _ => Normal tt).

Definition env_audit_throws : Page.Env :=
  Page.mkEnv (fun _ _ _ => Normal no_error)
             (fun _ _ _ => Throw "audit log unavailable").

Definition rows : list Contact := [with_industry "a"; with_score 7].

Definition select_ok : SelectBackend :=
  fun _ _ _ => Normal (mkResponse (Some rows) None).

Definition select_error : SelectBackend :=
  fun _ _ _ => Normal (mkResponse None (Some "timeout")).

Definition loaded : Dashboard.State :=
  Dashboard.mkState [unscored] false.

End Samples.

(** ** What the dashboard renders *)

Module View.
Import JS Eff Dashboard.

Definition COLORS : list string :=
  ["#8b5cf6"; "#3b82f6"; "#22c55e"; "#eab308";
   "#ef4444"; "#ec4899"; "#06b6d4"; "#f97316"].

(** [COLORS[index % COLORS.length]]; reading past the end of an array
    gives [undefined]. *)
Definition cell_fill (index : nat) : option string :=
  nth_error COLORS (index mod length COLORS).

(** [array.map((entry, index) => ...)]. *)
Fixpoint mapi_from {A B : Type} (f : A -> nat -> B) (index : nat)
  (l : list A) : list B :=
  match l with
  | [] => []
  | a :: l' => f a index :: mapi_from f (S index) l'
  end.

Definition Array_mapi {A B : Type} (f : A -> nat -> B) (l : list A)
  : list B :=
  mapi_from f 0 l.

(** The [<Cell fill=... />] children of a pie. *)
Definition cells {A : Type} (data : list A) : list (option string) :=
  Array_mapi (fun _ index => cell_fill index) data.

(** The pies of the source and segment tables, the bars of the industry
    table ([dataKey="value"]), the bars of the score table
    ([dataKey="count"]), and the 'No data available' placeholder. *)
Inductive Chart : Type :=
| PieChart (data : list Group) (fills : list (option string))
| GroupBarChart (data : list Group)
| BarChart (data : list Entry)
| NoData.

(** The four cards; the last one is shown as [{avgScore}/100]. *)
Record StatCards : Type := mkCards {
  total_card : nat;
  company_card : nat;
  source_card : nat;
  avg_card : Z
}.

Inductive Rendered : Type :=
| Spinner
| Board (cards : StatCards) (source segment industry score : Chart).

(** [data.length > 0 ? <chart> : <div>No data available</div>]. *)
Definition pie_or_placeholder (data : list Group) : Chart :=
  if 0 <? length data then PieChart data (cells data) else NoData.

Definition bars_or_placeholder (data : list Group) : Chart :=
  if 0 <? length data then GroupBarChart data else NoData.

Definition render (s : State) : Rendered :=
  if loading s then Spinner
  else
    let st := stats (contacts s) in
    Board (mkCards (totalContacts st) (withCompany st) (withSource st)
                   (avgScore st))
          (pie_or_placeholder (sourceData (contacts s)))
          (pie_or_placeholder (segmentData (contacts s)))
          (bars_or_placeholder (industryData (contacts s)))
          (BarChart (scoreData (contacts s))).

End View.

(** ** The page header and the CSV input *)

Module Header.
Import JS Eff Page.

(** The variants of the two view buttons. *)
Definition list_button_variant (s : State) : string :=
  if String.eqb (viewMode s) "table" then "secondary" else "ghost".

Definition analytics_button_variant (s : State) : string :=
  if String.eqb (viewMode s) "analytics" then "secondary" else "ghost".

(** The items of the Actions menu; the last one carries the number shown
    in [Delete Selected (n)]. *)
Inductive MenuItem : Type :=
| ColumnsItem
| ImportItem (disabled : bool)
| ExportItem
| DeleteSelectedItem (n : nat).

Definition menu_items (isImporting : bool) (s : State) : list MenuItem :=
  [ColumnsItem; ImportItem isImporting; ExportItem]
  ++ (if 0 <? length (selectedContacts s)
      then [DeleteSelectedItem (length (selectedContacts s))]
      else []).

(** The hidden file input as the change handler sees it: [files] (which
    may be null) and [value]. *)
Record FileInput : Type := mkInput {
  files : option (list string);
  value : string
}.

(** [event.target.files?.[0]]. *)
Definition first_file (t : FileInput) : option string :=
  match files t with
  | Some (file :: _) => Some file
  | _ => None
  end.

Record ImportState : Type := mkImport {
  page : State;
  target : FileInput
}.

(** [event.target.value = v]. *)
Definition set_value (v : string) : M ImportState unit :=
  modify (fun s => mkImport (page s) (mkInput (files (target s)) v)).

(** [handleImport] comes from the import hook and is any computation. *)
Definition handleImportCSV (handleImport : string -> M ImportState unit)
  : M ImportState unit :=
  s <- get ;;
  match first_file (target s) with
  | None => ret tt
  | Some file =>
      try_catch (handleImport file ;;; set_value "")
                (fun _ => set_value "")
  end.

End Header.

(** ** Further vocabulary *)

Module Terms.
Import JS Eff Dashboard.

Definition is_audit (e : Effect) : bool :=
  match e with AuditBulkDelete _ _ _ => true | _ => false end.

(** One more contact in the first row of a table. *)
Definition bump_first (l : list Entry) : list Entry :=
  match l with
  | (n, v) :: l' => (n, v + 1) :: l'
  | [] => []
  end.

(** The entries of a group table that carry the count [v]. *)
Definition with_value (v : nat) (l : list Group) : list Group :=
  filter (fun g => Spec.count_of g =? v) l.

(** The backend answers the select with an error or a rejected promise. *)
Definition fetch_fails (supabase : SelectBackend) : bool :=
  match supabase "contacts" select_columns "contact_name" with
  | Normal r => match error r with Some _ => true | None => false end
  | Throw _ => true
  end.

(** The backend answers the select without error and with no row. *)
Definition fetch_is_empty (supabase : SelectBackend) : bool :=
  match supabase "contacts" select_columns "contact_name" with
  | Normal r =>
      match error r, data r with
      | None, None | None, Some [] => true
      | _, _ => false
      end
  | Throw _ => false
  end.


(** The source is the literal string 'Unknown'. *)
Definition source_is_unknown (c : Contact) : bool :=
  match contact_source c with
  | Some s => String.eqb s "Unknown"
  | None => false
  end.

Definition empty_board : View.Rendered :=
  View.Board (View.mkCards 0 0 0 0%Z) View.NoData View.NoData View.NoData
    (View.BarChart [("0-20", 0); ("21-40", 0); ("41-60", 0); ("61-80", 0);
                    ("81-100", 0)]).

End Terms.

Module MoreSamples.
Import JS Eff Dashboard.

Definition with_source (s : option string) : Contact :=
  mkContact "s" "s" None s None None None None.

(** The doubles written 0.1, 0.3, 0.6, 0.7 and 3.8. *)
Definition d0_1 : Q := 3602879701896397 # 36028797018963968.
Definition d0_3 : Q := 5404319552844595 # 18014398509481984.
Definition d0_6 : Q := 5404319552844595 # 9007199254740992.
Definition d0_7 : Q := 3152519739159347 # 4503599627370496.
Definition d3_8 : Q := 4278419646001971 # 1125899906842624.

Definition scored (qs : list Q) : list Contact :=
  map (fun q => mkContact "c" "c" None None None None None (Some q)) qs.

Definition env_rejects : Page.Env :=
  Page.mkEnv (fun _ _ _ => Throw "network") (fun _ _ _ => Normal tt).

Definition select_rejects : SelectBackend := fun _ _ _ => Throw "network".

Definition select_null : SelectBackend :=
  fun _ _ _ => Normal (mkResponse None None).

Definition import_fails (file : string) : M Header.ImportState unit :=
  emit (Toast "Import Error" file (Some "destructive")) ;;; throw "bad csv".

Definition picked : Header.ImportState :=
  Header.mkImport Page.initial
    (Header.mkInput (Some ["contacts.csv"]) "C:\fakepath\contacts.csv").

Definition nothing_picked : Header.ImportState :=
  Header.mkImport Page.initial (Header.mkInput (Some []) "").

End MoreSamples.

(** * Properties *)

Import JS Eff Dashboard Spec.

(** ** The model on small inputs *)

Example entries_order :
  Object_entries [("b", Num 1); ("10", Num 2); ("2", Num 3); ("a", Num 4);
                  ("01", Num 5); ("0", Num 6)]
  = [("0", Num 6); ("2", Num 3); ("10", Num 2); ("b", Num 1); ("a", Num 4);
     ("01", Num 5)].
Proof. reflexivity. Qed.

Example sort_is_stable :
  Array_sort by_value_desc
    [("a", Num 1); ("b", Num 3); ("c", Num 1); ("d", Num 3)]
  = [("b", Num 3); ("d", Num 3); ("a", Num 1); ("c", Num 1)].
Proof. reflexivity. Qed.

Example industryData_counts :
  industryData (map Samples.with_industry ["x"; "y"; "x"; "7"; "y"; "y"; ""])
  = [("y", Num 3); ("x", Num 2); ("7", Num 1); ("Unknown", Num 1)].
Proof. reflexivity. Qed.

(** A group named like a member of [Object.prototype]: the count becomes
    a string, and a group named [__proto__] is not recorded at all. *)
Example inherited_names :
  sourceData (map MoreSamples.with_source
                  [Some "web"; Some "constructor"; Some "__proto__";
                   Some "constructor"; Some "__proto__"])
  = [("web", Num 1);
     ("constructor", Str "function Object() { [native code] }11")].
Proof. reflexivity. Qed.

Example scoreData_three :
  scoreData Samples.three_scored
  = [("0-20", 2); ("21-40", 1); ("41-60", 0); ("61-80", 0); ("81-100", 0)].
Proof. reflexivity. Qed.

Example round_half_up :
  avgScore (stats [Samples.with_score 2.5]) = 3%Z /\
  avgScore (stats [Samples.with_score (-2.5)]) = (-2)%Z.
Proof. split; reflexivity. Qed.

Example fetch_rows :
  run (fetchContacts Samples.select_ok) Samples.loaded
  = (Normal tt, mkState Samples.rows false,
     [BackendSelect "contacts" select_columns "contact_name"]).
Proof. reflexivity. Qed.

Example fetch_error :
  run (fetchContacts Samples.select_error) Samples.loaded
  = (Normal tt, Samples.loaded,
     [BackendSelect "contacts" select_columns "contact_name";
      ConsoleError "Error fetching contacts:" "timeout"]).
Proof. reflexivity. Qed.

Example delete_two :
  run (Page.handleBulkDelete Samples.env_ok) Samples.two_selected
  = (Normal tt, Page.mkState "table" false false [] 4,
     [BackendDelete "contacts" "id" ["c1"; "c2"];
      AuditBulkDelete "contacts" 2 ["c1"; "c2"];
      Toast "Success" "2 contacts deleted successfully" None]).
Proof. reflexivity. Qed.

(** ** Sorting and [Object.entries] rearrange, and keep, the entries *)

Section SortFacts.
Context {A : Type} (cmp : A -> A -> Z).

Lemma sort_insert_perm (x : A) (l : list A) :
  Permutation (x :: l) (sort_insert cmp x l).
Proof.
  induction l as [|y l IH]; simpl.
  - apply Permutation_refl.
  - destruct (0 <? cmp x y)%Z.
    + eapply perm_trans; [apply perm_swap|].
      now apply perm_skip.
    + apply Permutation_refl.
Qed.

Lemma Array_sort_perm (l : list A) : Permutation l (Array_sort cmp l).
Proof.
  induction l as [|x l IH]; simpl.
  - constructor.
  - eapply perm_trans; [|apply sort_insert_perm].
    now apply perm_skip.
Qed.

End SortFacts.

Lemma filter_split_perm {A : Type} (p : A -> bool) (l : list A) :
  Permutation l (filter p l ++ filter (fun a => negb (p a)) l).
Proof.
  induction l as [|a l IH]; simpl.
  - constructor.
  - destruct (p a); simpl.
    + now apply perm_skip.
    + now apply Permutation_cons_app.
Qed.

Lemma Object_entries_perm (o : Obj) : Permutation o (Object_entries o).
Proof.
  unfold Object_entries.
  eapply perm_trans; [apply (filter_split_perm (fun e => is_array_index (fst e)))|].
  apply Permutation_app_tail, Array_sort_perm.
Qed.

(** ** Tallies *)

Lemma append_assoc (a b c : string) :
  ((a ++ b) ++ c)%string = (a ++ (b ++ c))%string.
Proof.
  induction a as [|ch a IH]; simpl; [reflexivity|]. now rewrite IH.
Qed.

Lemma inherited_proto : inherited "__proto__" = Some "[object Object]".
Proof. reflexivity. Qed.

Lemma inherited_nonempty (k text : string) :
  inherited k = Some text -> exists ch rest, text = String ch rest.
Proof.
  unfold inherited.
  destruct (String.eqb k "__proto__").
  - intros E; inversion E; subst. eexists; eexists; reflexivity.
  - destruct (find _ prototype_functions) as [[p fname]|]; [|discriminate].
    intros E; inversion E; subst. unfold native_source; simpl.
    eexists; eexists; reflexivity.
Qed.

Lemma plain_not_proto (k : string) :
  inherited k = None -> String.eqb k "__proto__" = false.
Proof.
  destruct (String.eqb_spec k "__proto__") as [->|]; [discriminate|reflexivity].
Qed.

Lemma Obj_own_define_same (o : Obj) (k : string) (v : Value) :
  Obj_own (Obj_define o k v) k = Some v.
Proof.
  induction o as [|[k' v'] o IH]; simpl.
  - now rewrite String.eqb_refl.
  - destruct (String.eqb k' k) eqn:E; simpl; rewrite E; auto.
Qed.

Lemma Obj_own_define_other (o : Obj) (k k0 : string) (v : Value) :
  k <> k0 -> Obj_own (Obj_define o k v) k0 = Obj_own o k0.
Proof.
  intros Hk.
  induction o as [|[k' v'] o IH]; simpl.
  - destruct (String.eqb_spec k k0); congruence.
  - destruct (String.eqb_spec k' k); simpl.
    + subst k'. destruct (String.eqb_spec k k0); congruence.
    + now rewrite IH.
Qed.

Lemma Obj_own_set_other (o : Obj) (k k0 : string) (v : Value) :
  k <> k0 -> Obj_own (Obj_set o k v) k0 = Obj_own o k0.
Proof.
  intros Hk. unfold Obj_set.
  destruct (String.eqb k "__proto__"); [reflexivity|].
  now apply Obj_own_define_other.
Qed.

Lemma Obj_own_None (o : Obj) (k : string) :
  Obj_own o k = None <-> ~ In k (map fst o).
Proof.
  induction o as [|[k' v'] o IH]; simpl.
  - tauto.
  - destruct (String.eqb_spec k' k).
    + split; [discriminate|]. intros H; exfalso; auto.
    + rewrite IH. tauto.
Qed.

Lemma Obj_own_In (o : Obj) (k : string) (v : Value) :
  NoDup (map fst o) -> In (k, v) o -> Obj_own o k = Some v.
Proof.
  induction o as [|[k' v'] o IH]; simpl; intros Hnd Hin.
  - contradiction.
  - inversion Hnd as [|? ? Hnotin Hnd']; subst.
    destruct Hin as [Heq|Hin].
    + inversion Heq; subst. now rewrite String.eqb_refl.
    + destruct (String.eqb_spec k' k).
      * subst k'. exfalso. apply Hnotin.
        change k with (fst (k, v)). now apply in_map.
      * auto.
Qed.

Lemma Obj_own_Some_In (o : Obj) (k : string) (v : Value) :
  Obj_own o k = Some v -> In (k, v) o.
Proof.
  induction o as [|[k' v'] o IH]; simpl.
  - discriminate.
  - destruct (String.eqb_spec k' k).
    + intros H; inversion H; subst. now left.
    + intros H. right. auto.
Qed.

Lemma Obj_define_keys (o : Obj) (k : string) (v : Value) :
  map fst (Obj_define o k v) =
  match Obj_own o k with
  | Some _ => map fst o
  | None => map fst o ++ [k]
  end.
Proof.
  induction o as [|[k' v'] o IH]; simpl.
  - reflexivity.
  - destruct (String.eqb_spec k' k); simpl.
    + reflexivity.
    + rewrite IH. now destruct (Obj_own o k).
Qed.

Lemma Obj_set_NoDup (o : Obj) (k : string) (v : Value) :
  NoDup (map fst o) -> NoDup (map fst (Obj_set o k v)).
Proof.
  intros Hnd. unfold Obj_set.
  destruct (String.eqb k "__proto__"); [exact Hnd|].
  rewrite Obj_define_keys.
  destruct (Obj_own o k) eqn:E; auto.
  apply Obj_own_None in E.
  apply NoDup_rev in Hnd.
  rewrite <- (rev_involutive (map fst o ++ [k])).
  apply NoDup_rev. rewrite rev_app_distr. simpl.
  constructor; auto. now rewrite <- in_rev.
Qed.

Lemma total_counts_perm (l l' : list Group) :
  Permutation l l' -> total_counts l = total_counts l'.
Proof.
  induction 1 as [|g l l' _ IH|g g' l|l l' l'' _ IH1 _ IH2]; simpl.
  - reflexivity.
  - now rewrite IH.
  - destruct (group_value g), (group_value g'), (total_counts l);
      try reflexivity.
    f_equal. lia.
  - congruence.
Qed.

(** One more contact in a group whose name is not inherited. *)
Lemma total_counts_step (o : Obj) (k : string) (t : nat) :
  inherited k = None ->
  total_counts o = Some t ->
  total_counts (Obj_set o k (or_zero_plus_one (Obj_get o k))) = Some (t + 1).
Proof.
  intros Hk. unfold Obj_set, Obj_get.
  rewrite (plain_not_proto k Hk), Hk.
  revert t.
  induction o as [|[k' v'] o IH]; intros t Ht; simpl in *.
  - inversion Ht. reflexivity.
  - unfold group_value in *; simpl in *.
    destruct v' as [n|str]; [|discriminate].
    destruct (total_counts o) as [t'|] eqn:Et; [|discriminate].
    inversion Ht; subst t.
    destruct (String.eqb k' k) eqn:E; simpl.
    + unfold group_value; simpl. rewrite Et.
      destruct (Nat.eqb_spec n 0); f_equal; lia.
    + unfold group_value; simpl.
      rewrite (IH t' eq_refl). f_equal. lia.
Qed.

Section Tally.
Variable key : Contact -> string.

Lemma tally_snoc (cs : list Contact) (c : Contact) :
  tally key (cs ++ [c]) = tally_step key (tally key cs) c.
Proof.
  unfold tally. now rewrite fold_left_app.
Qed.

Lemma tally_NoDup (cs : list Contact) : NoDup (map fst (tally key cs)).
Proof.
  induction cs as [|c cs IH] using rev_ind.
  - constructor.
  - rewrite tally_snoc. now apply Obj_set_NoDup.
Qed.

Lemma occurrences_snoc (k : string) (cs : list Contact) (c : Contact) :
  occurrences key k (cs ++ [c]) =
  occurrences key k cs + (if String.eqb (key c) k then 1 else 0).
Proof.
  unfold occurrences. rewrite filter_app, length_app. simpl.
  now destruct (String.eqb (key c) k).
Qed.

Lemma occurrences_positive (k : string) (cs : list Contact) :
  0 < occurrences key k cs -> exists c, In c cs /\ key c = k.
Proof.
  unfold occurrences.
  destruct (filter (fun c => String.eqb (key c) k) cs) as [|c l] eqn:E.
  - simpl; lia.
  - intros _. exists c.
    assert (Hin : In c (filter (fun c => String.eqb (key c) k) cs))
      by (rewrite E; now left).
    apply filter_In in Hin. destruct Hin as [Hin Hk].
    split; [exact Hin|]. now apply String.eqb_eq.
Qed.

Lemma step_value (k : string) (n : nat) (o : Obj) :
  Obj_own o k = (if n =? 0 then None else Some (expected_value k n)) ->
  or_zero_plus_one (Obj_get o k) = expected_value k (n + 1).
Proof.
  intros Hown. unfold Obj_get, expected_value. rewrite Hown.
  rewrite Nat.add_1_r.
  destruct (Nat.eqb_spec n 0) as [->|Hn].
  - destruct (inherited k); reflexivity.
  - unfold expected_value.
    destruct (inherited k) as [text|] eqn:Ek; simpl.
    + destruct (inherited_nonempty k text Ek) as (ch & rest & ->).
      simpl. now rewrite append_assoc.
    + destruct (Nat.eqb_spec n 0); [contradiction|].
      now rewrite Nat.add_1_r.
Qed.

(** The tally holds, for each group that occurs, what [expected_value]
    says; a group named [__proto__] is never recorded. *)
Lemma tally_own (cs : list Contact) (k : string) :
  Obj_own (tally key cs) k =
  if (occurrences key k cs =? 0) || String.eqb k "__proto__"
  then None
  else Some (expected_value k (occurrences key k cs)).
Proof.
  induction cs as [|c cs IH] using rev_ind.
  - reflexivity.
  - rewrite tally_snoc, occurrences_snoc. unfold tally_step.
    destruct (String.eqb_spec (key c) k) as [->|Hne].
    + unfold Obj_set.
      destruct (String.eqb k "__proto__") eqn:Ep.
      * rewrite IH, !orb_true_r. reflexivity.
      * rewrite orb_false_r in *.
        rewrite Obj_own_define_same.
        destruct (Nat.eqb_spec (occurrences key k cs + 1) 0); [lia|].
        f_equal. now apply step_value.
    + rewrite Obj_own_set_other by assumption.
      now rewrite Nat.add_0_r.
Qed.

(** The entries of a group table. *)
Lemma entries_of_tally (cs : list Contact) :
  NoDup (map group_name (Object_entries (tally key cs))) /\
  forall (k : string) (v : Value),
    In (k, v) (Object_entries (tally key cs)) <->
    0 < occurrences key k cs /\ k <> "__proto__" /\
    v = expected_value k (occurrences key k cs).
Proof.
  pose proof (Object_entries_perm (tally key cs)) as Hperm.
  split.
  - eapply Permutation_NoDup; [apply Permutation_map, Hperm|].
    apply tally_NoDup.
  - intros k v. split.
    + intros Hin.
      apply (Permutation_in _ (Permutation_sym Hperm)) in Hin.
      pose proof (Obj_own_In _ _ _ (tally_NoDup cs) Hin) as Hown.
      rewrite tally_own in Hown.
      destruct (Nat.eqb_spec (occurrences key k cs) 0); [discriminate|].
      destruct (String.eqb_spec k "__proto__"); [discriminate|].
      simpl in Hown. inversion Hown. repeat split; [lia|assumption].
    + intros (Hpos & Hk & ->). apply (Permutation_in _ Hperm).
      apply Obj_own_Some_In. rewrite tally_own.
      destruct (Nat.eqb_spec (occurrences key k cs) 0); [lia|].
      destruct (String.eqb_spec k "__proto__"); [contradiction|].
      reflexivity.
Qed.

Lemma total_counts_fold (cs : list Contact) (o : Obj) (t : nat) :
  plain_names key cs ->
  total_counts o = Some t ->
  total_counts (fold_left (tally_step key) cs o) = Some (t + length cs).
Proof.
  intros Hplain. revert o t.
  induction Hplain as [|c cs Hc Hcs IH]; intros o t Ht; simpl.
  - now rewrite Nat.add_0_r.
  - rewrite (IH _ (t + 1)).
    + f_equal. lia.
    + unfold tally_step. now apply total_counts_step.
Qed.

(** Without inherited names the values of a group table are counts, and
    they sum to the number of contacts. *)
Lemma total_counts_tally (cs : list Contact) :
  plain_names key cs ->
  total_counts (Object_entries (tally key cs)) = Some (length cs).
Proof.
  intros Hplain.
  rewrite <- (total_counts_perm _ _ (Object_entries_perm _)).
  unfold tally. now rewrite (total_counts_fold cs [] 0 Hplain eq_refl).
Qed.

Lemma plain_expected_value (cs : list Contact) (k : string) :
  plain_names key cs -> 0 < occurrences key k cs ->
  expected_value k (occurrences key k cs) = Num (occurrences key k cs).
Proof.
  intros Hplain Hpos.
  destruct (occurrences_positive k cs Hpos) as (c & Hin & <-).
  unfold plain_names in Hplain. rewrite Forall_forall in Hplain.
  unfold expected_value. now rewrite (Hplain c Hin).
Qed.

Lemma tally_entry (cs : list Contact) (g : Group) :
  plain_names key cs ->
  In g (tally key cs) ->
  group_value g = Num (occurrences key (group_name g) cs) /\
  0 < occurrences key (group_name g) cs.
Proof.
  intros Hplain Hin. destruct g as [k v].
  apply (Permutation_in _ (Object_entries_perm _)) in Hin.
  apply (proj2 (entries_of_tally cs)) in Hin.
  destruct Hin as (Hpos & _ & ->).
  unfold group_value, group_name; simpl.
  split; [now apply plain_expected_value|exact Hpos].
Qed.

End Tally.

(** ** Sorting by count *)

Lemma by_value_desc_counts (a b : Group) :
  is_count a = true -> is_count b = true ->
  by_value_desc a b = (Z.of_nat (count_of b) - Z.of_nat (count_of a))%Z.
Proof.
  unfold is_count, by_value_desc, count_of, to_number.
  destruct (group_value a), (group_value b); intros; try discriminate.
  reflexivity.
Qed.



Section Prefix.
Context {A : Type} (R : A -> A -> Prop).



End Prefix.

(** ** The five score ranges *)

Lemma between_true (lo hi q : Q) :
  between lo hi q = true <-> (lo <= q /\ q <= hi)%Q.
Proof.
  unfold between. rewrite andb_true_iff, !Qle_bool_iff. tauto.
Qed.

Lemma between_false (lo hi q : Q) :
  between lo hi q = false <-> (q < lo \/ hi < q)%Q.
Proof.
  unfold between. rewrite andb_false_iff.
  split.
  - intros [H|H]; [left|right]; apply Qnot_le_lt; intros Hle;
      apply Qle_bool_iff in Hle; congruence.
  - intros [H|H]; [left|right];
      (destruct (Qle_bool _ _) eqn:E; [|reflexivity]);
      apply Qle_bool_iff in E; apply Qlt_not_le in H; contradiction.
Qed.

Lemma classify (q : Q) :
  Bucket q (between 0 20 q) (between 21 40 q) (between 41 60 q)
           (between 61 80 q) (between 81 100 q).
Proof.
  destruct (between 0 20 q) eqn:E1;
  destruct (between 21 40 q) eqn:E2;
  destruct (between 41 60 q) eqn:E3;
  destruct (between 61 80 q) eqn:E4;
  destruct (between 81 100 q) eqn:E5;
  rewrite ?between_true, ?between_false in *;
  try (exfalso; lra);
  constructor; unfold in_a_gap; lra.
Qed.

Lemma count_between_cons (lo hi : Q) (c : Contact) (cs : list Contact) :
  count_between lo hi (c :: cs) =
  (if between lo hi (score_or_0 c) then 1 else 0) + count_between lo hi cs.
Proof.
  unfold count_between, between. simpl.
  now destruct (Qle_bool lo (score_or_0 c) && Qle_bool (score_or_0 c) hi).
Qed.

Lemma find_incr_ranges (q : Q) (n1 n2 n3 n4 n5 : nat) :
  find_incr q
    [ mkRange "0-20" 0 20 n1; mkRange "21-40" 21 40 n2;
      mkRange "41-60" 41 60 n3; mkRange "61-80" 61 80 n4;
      mkRange "81-100" 81 100 n5 ] =
    [ mkRange "0-20" 0 20 (n1 + if between 0 20 q then 1 else 0);
      mkRange "21-40" 21 40 (n2 + if between 21 40 q then 1 else 0);
      mkRange "41-60" 41 60 (n3 + if between 41 60 q then 1 else 0);
      mkRange "61-80" 61 80 (n4 + if between 61 80 q then 1 else 0);
      mkRange "81-100" 81 100 (n5 + if between 81 100 q then 1 else 0) ].
Proof.
  unfold find_incr, in_range. cbn [min max range count].
  change (Qle_bool 0 q && Qle_bool q 20) with (between 0 20 q).
  change (Qle_bool 21 q && Qle_bool q 40) with (between 21 40 q).
  change (Qle_bool 41 q && Qle_bool q 60) with (between 41 60 q).
  change (Qle_bool 61 q && Qle_bool q 80) with (between 61 80 q).
  change (Qle_bool 81 q && Qle_bool q 100) with (between 81 100 q).
  destruct (classify q); rewrite ?Nat.add_0_r; reflexivity.
Qed.

Lemma fold_find_incr (cs : list Contact) (n1 n2 n3 n4 n5 : nat) :
  fold_left (fun rs c => find_incr (score_or_0 c) rs) cs
    [ mkRange "0-20" 0 20 n1; mkRange "21-40" 21 40 n2;
      mkRange "41-60" 41 60 n3; mkRange "61-80" 61 80 n4;
      mkRange "81-100" 81 100 n5 ] =
    [ mkRange "0-20" 0 20 (n1 + count_between 0 20 cs);
      mkRange "21-40" 21 40 (n2 + count_between 21 40 cs);
      mkRange "41-60" 41 60 (n3 + count_between 41 60 cs);
      mkRange "61-80" 61 80 (n4 + count_between 61 80 cs);
      mkRange "81-100" 81 100 (n5 + count_between 81 100 cs) ].
Proof.
  revert n1 n2 n3 n4 n5.
  induction cs as [|c cs IH]; intros n1 n2 n3 n4 n5.
  - cbn [fold_left]. unfold count_between; simpl.
    now rewrite !Nat.add_0_r.
  - cbn [fold_left]. rewrite find_incr_ranges, IH.
    rewrite !count_between_cons, !Nat.add_assoc. reflexivity.
Qed.

Lemma scoreData_closed (cs : list Contact) :
  scoreData cs =
    [ ("0-20", count_between 0 20 cs); ("21-40", count_between 21 40 cs);
      ("41-60", count_between 41 60 cs); ("61-80", count_between 61 80 cs);
      ("81-100", count_between 81 100 cs) ].
Proof.
  unfold scoreData, ranges0. rewrite fold_find_incr. reflexivity.
Qed.

Lemma in_some_range_between (c : Contact) :
  in_some_range c =
  between 0 20 (score_or_0 c) || between 21 40 (score_or_0 c)
  || between 41 60 (score_or_0 c) || between 61 80 (score_or_0 c)
  || between 81 100 (score_or_0 c).
Proof.
  unfold in_some_range, ranges0, in_range, between. simpl.
  now rewrite orb_false_r, !orb_assoc.
Qed.

Lemma total_scoreData (cs : list Contact) :
  total (scoreData cs) = length (filter in_some_range cs).
Proof.
  rewrite scoreData_closed. unfold total, value. simpl.
  induction cs as [|c cs IH].
  - reflexivity.
  - rewrite !count_between_cons. simpl filter.
    rewrite in_some_range_between.
    destruct (classify (score_or_0 c)); simpl; lia.
Qed.

Lemma gap_in_no_range (c : Contact) :
  in_a_gap (score_or_0 c) ->
  between 0 20 (score_or_0 c) = false /\
  between 21 40 (score_or_0 c) = false /\
  between 41 60 (score_or_0 c) = false /\
  between 61 80 (score_or_0 c) = false /\
  between 81 100 (score_or_0 c) = false.
Proof.
  unfold in_a_gap. intros H.
  rewrite !between_false. lra.
Qed.

Lemma count_between_app (lo hi : Q) (l1 l2 : list Contact) :
  count_between lo hi (l1 ++ l2) =
  count_between lo hi l1 + count_between lo hi l2.
Proof.
  unfold count_between. now rewrite filter_app, length_app.
Qed.

Lemma sorted_industries_perm (cs : list Contact) :
  Permutation (industries cs)
    (Array_sort by_value_desc (Object_entries (industries cs))).
Proof.
  eapply perm_trans; [apply Object_entries_perm|apply Array_sort_perm].
Qed.

Lemma total_counts_app (l1 l2 : list Group) (t : nat) :
  total_counts (l1 ++ l2) = Some t ->
  exists t1 t2,
    total_counts l1 = Some t1 /\ total_counts l2 = Some t2 /\ t = t1 + t2.
Proof.
  revert t.
  induction l1 as [|g l1 IH]; simpl; intros t Ht.
  - exists 0, t. auto.
  - destruct (group_value g) as [n|]; [|discriminate].
    destruct (total_counts (l1 ++ l2)) as [t'|]; [|discriminate].
    inversion Ht; subst t.
    destruct (IH t' eq_refl) as (t1 & t2 & E1 & E2 & ->).
    exists (n + t1), t2. rewrite E1, E2. repeat split. lia.
Qed.

Lemma plain_counts (key : Contact -> string) (cs : list Contact) :
  plain_names key cs ->
  Forall (fun g => is_count g = true) (Object_entries (tally key cs)).
Proof.
  intros Hplain. apply Forall_forall. intros g Hin.
  apply (Permutation_in _ (Permutation_sym (Object_entries_perm _))) in Hin.
  destruct (tally_entry key cs g Hplain Hin) as [Hv _].
  unfold is_count. now rewrite Hv.
Qed.

(** ** Grouped frequency tables *)

(** C1, as stated, fails: with nine different industries the industry table
    keeps eight groups of one contact each, and a score of 150 is counted
    in no score range. *)
Lemma counts_do_not_always_sum_to_length :
  total_counts (industryData Samples.nine_industries)
    <> Some (length Samples.nine_industries) /\
  total (scoreData [Samples.with_score 150])
    <> length [Samples.with_score 150].
Proof.
  split; vm_compute; discriminate.
Qed.

(** C1 (amended).  When no source is named like a member of
    [Object.prototype], the values of the source table are counts and sum
    to the length of the contact list; likewise for the segment table.
    Under the same condition on the industries, the values of the industry
    table are counts that sum to at most that length, and to exactly that
    length when there are at most 8 industry groups.  The counts of the
    score table sum to the number of contacts whose score (0 when missing)
    lies in one of the five ranges, hence to the length of the list when
    every score does. *)
Theorem grouped_counts_sum (cs : list Contact) :
  (plain_names source_key cs ->
   total_counts (sourceData cs) = Some (length cs)) /\
  (plain_names segment_key cs ->
   total_counts (segmentData cs) = Some (length cs)) /\
  (plain_names industry_key cs ->
   exists t, total_counts (industryData cs) = Some t /\ t <= length cs /\
             (length (industries cs) <= 8 -> t = length cs)) /\
  total (scoreData cs) = length (filter in_some_range cs) /\
  (forallb in_some_range cs = true -> total (scoreData cs) = length cs).
Proof.
  split; [|split; [|split; [|split]]].
  - apply total_counts_tally.
  - apply total_counts_tally.
  - intros Hplain.
    assert (Hall : total_counts (Array_sort by_value_desc
                                   (Object_entries (industries cs)))
                   = Some (length cs)).
    { rewrite <- (total_counts_perm _ _ (Array_sort_perm _ _)).
      now apply total_counts_tally. }
    unfold industryData, slice0.
    set (all := Array_sort by_value_desc (Object_entries (industries cs)))
      in *.
    rewrite <- (firstn_skipn 8 all) in Hall.
    destruct (total_counts_app _ _ _ Hall) as (t1 & t2 & E1 & E2 & Ht).
    exists t1. split; [exact E1|]. split; [lia|].
    intros Hle.
    assert (Hlen : length all <= 8).
    { pose proof (Permutation_length (sorted_industries_perm cs)) as Hl.
      fold all in Hl. unfold Group in *. lia. }
    rewrite (skipn_all2 all Hlen) in E2. simpl in E2.
    inversion E2. lia.
  - apply total_scoreData.
  - intros Hin. rewrite total_scoreData.
    f_equal.
    induction cs as [|c cs IH]; simpl in *; [reflexivity|].
    apply andb_true_iff in Hin. destruct Hin as [Hc Hcs].
    rewrite Hc. f_equal. now apply IH.
Qed.

Lemma grouped_counts_sum_witness :
  total_counts (sourceData Samples.three_scored)
    = Some (length Samples.three_scored) /\
  total (scoreData Samples.three_scored) = length Samples.three_scored.
Proof.
  destruct (grouped_counts_sum Samples.three_scored)
    as (Hsrc & _ & _ & _ & Hscore).
  split.
  - apply Hsrc. repeat constructor.
  - apply Hscore. reflexivity.
Defined.




(** ** Score distribution *)

(** C9.  The score table is always the five ranges '0-20', '21-40',
    '41-60', '61-80', '81-100' in that order, the count of a range being
    the number of contacts whose score (0 when missing) is between its
    bounds, both included; a contact whose score is below 0, above 100 or
    strictly between two adjacent ranges changes no count. *)
Theorem scoreData_buckets (cs : list Contact) :
  scoreData cs =
    [ ("0-20", count_between 0 20 cs); ("21-40", count_between 21 40 cs);
      ("41-60", count_between 41 60 cs); ("61-80", count_between 61 80 cs);
      ("81-100", count_between 81 100 cs) ] /\
  (forall (c : Contact) (before after : list Contact),
     cs = before ++ c :: after ->
     in_a_gap (score_or_0 c) ->
     scoreData cs = scoreData (before ++ after)).
Proof.
  split.
  - apply scoreData_closed.
  - intros c l1 l2 -> Hgap.
    destruct (gap_in_no_range c Hgap) as (E1 & E2 & E3 & E4 & E5).
    rewrite !scoreData_closed, !count_between_app, !count_between_cons.
    rewrite E1, E2, E3, E4, E5. reflexivity.
Qed.

Lemma scoreData_buckets_witness :
  scoreData [Samples.with_score 10; Samples.with_score 20.5;
             Samples.with_score 150] =
  scoreData [Samples.with_score 10; Samples.with_score 150] /\
  scoreData [Samples.with_score 10; Samples.with_score 150] =
  scoreData [Samples.with_score 10].
Proof.
  split.
  - apply (proj2 (scoreData_buckets _) (Samples.with_score 20.5)
             [Samples.with_score 10] [Samples.with_score 150] eq_refl).
    unfold in_a_gap. vm_compute. intuition discriminate.
  - apply (proj2 (scoreData_buckets _) (Samples.with_score 150)
             [Samples.with_score 10] [] eq_refl).
    unfold in_a_gap. vm_compute. intuition discriminate.
Defined.

(** ** The average score *)

Lemma score_or_0_score_of (c : Contact) : (score_or_0 c == score_of c)%Q.
Proof.
  unfold score_or_0, score_of, number_or.
  destruct (score c) as [q|]; [|reflexivity].
  destruct (Qeq_bool q 0) eqn:E; [|reflexivity].
  apply Qeq_bool_eq in E. now rewrite E.
Qed.

Lemma reduce_sum (cs : list Contact) (a : Q) :
  (fold_left (fun sum c => sum + score_or_0 c) cs a
   == a + fold_right Qplus 0 (map score_of cs))%Q.
Proof.
  revert a.
  induction cs as [|c cs IH]; intros a; simpl.
  - ring.
  - rewrite IH, score_or_0_score_of. ring.
Qed.

Lemma Math_round_nearest (q : Q) : nearest_integer (Math_round q) q.
Proof.
  unfold nearest_integer, Math_round. intros z'.
  set (k := Qfloor (q + (1 # 2))).
  pose proof (Qfloor_le (q + (1 # 2))) as Hlo.
  pose proof (Qlt_floor (q + (1 # 2))) as Hhi.
  fold k in Hlo, Hhi.
  rewrite inject_Z_plus in Hhi.
  change (inject_Z 1) with 1%Q in Hhi.
  assert (Hk : (Qabs (inject_Z k - q) <= 1 # 2)%Q).
  { apply Qabs_Qle_condition. split; lra. }
  destruct (Z.lt_trichotomy z' k) as [Hlt|[->|Hgt]].
  - assert (Hz : (inject_Z z' <= inject_Z k - 1)%Q).
    { assert (H1 : (z' <= k + -1)%Z) by lia.
      rewrite Zle_Qle, inject_Z_plus in H1.
      change (inject_Z (-1)) with (-1 # 1)%Q in H1. lra. }
    eapply Qle_trans; [exact Hk|].
    rewrite <- Qabs_opp.
    eapply Qle_trans; [|apply Qle_Qabs]. lra.
  - apply Qle_refl.
  - assert (Hz : (inject_Z k + 1 <= inject_Z z')%Q).
    { assert (H1 : (k + 1 <= z')%Z) by lia.
      rewrite Zle_Qle, inject_Z_plus in H1.
      change (inject_Z 1) with 1%Q in H1. lra. }
    eapply Qle_trans; [exact Hk|].
    eapply Qle_trans; [|apply Qle_Qabs]. lra.
Qed.

Lemma nearest_integer_comp (z : Z) (q q' : Q) :
  (q == q')%Q -> nearest_integer z q -> nearest_integer z q'.
Proof.
  unfold nearest_integer. intros E H z'.
  rewrite <- E. apply H.
Qed.

Lemma avgScore_nonempty (cs : list Contact) :
  cs <> [] ->
  avgScore (stats cs) =
  Math_round
    (fold_left (fun sum c => (sum + score_or_0 c)%Q) cs 0%Q
     / inject_Z (Z.of_nat (length cs)))%Q.
Proof.
  intros Hne. unfold stats; simpl.
  destruct cs; [congruence|reflexivity].
Qed.

Lemma reduce_mean (cs : list Contact) :
  (fold_left (fun sum c => (sum + score_or_0 c)%Q) cs 0%Q
   / inject_Z (Z.of_nat (length cs)) == arithmetic_mean cs)%Q.
Proof.
  unfold arithmetic_mean. rewrite reduce_sum.
  now rewrite Qplus_0_l.
Qed.

(** In exact arithmetic the average is the rounded mean, whatever the
    scores. *)
Lemma exact_average_rounded_mean (cs : list Contact) :
  cs <> [] ->
  avgScore (stats cs) = Qfloor (arithmetic_mean cs + (1 # 2)) /\
  nearest_integer (avgScore (stats cs)) (arithmetic_mean cs).
Proof.
  intros Hne. rewrite (avgScore_nonempty cs Hne).
  split.
  - unfold Math_round. now rewrite reduce_mean.
  - eapply nearest_integer_comp; [apply reduce_mean|].
    apply Math_round_nearest.
Qed.

(** C2, as stated, fails: for two contacts whose scores are the doubles
    written 0.7 and 0.3 the sum is rounded up to 1 in binary64, so the
    average shown is 1, while the mean of the two scores is below one half
    and 0 is the integer nearest to it. *)
Lemma average_is_not_always_the_rounded_mean :
  Binary64.is_double MoreSamples.d0_7 = true /\
  Binary64.is_double MoreSamples.d0_3 = true /\
  Binary64.avgScore (MoreSamples.scored [MoreSamples.d0_7; MoreSamples.d0_3])
    = Some 1%Z /\
  Qfloor (arithmetic_mean
            (MoreSamples.scored [MoreSamples.d0_7; MoreSamples.d0_3])
          + (1 # 2)) = 0%Z /\
  ~ nearest_integer 1
      (arithmetic_mean
         (MoreSamples.scored [MoreSamples.d0_7; MoreSamples.d0_3])).
Proof.
  split; [vm_compute; reflexivity|].
  split; [vm_compute; reflexivity|].
  split; [vm_compute; reflexivity|].
  split; [vm_compute; reflexivity|].
  intros H. specialize (H 0%Z). vm_compute in H. apply H. reflexivity.
Qed.

Lemma Qfloor_unique (q : Q) (k : Z) :
  (inject_Z k <= q)%Q -> (q < inject_Z k + 1)%Q -> Qfloor q = k.
Proof.
  intros Hlo Hhi.
  pose proof (Qfloor_le q) as Hf. pose proof (Qlt_floor q) as Hg.
  assert (H1 : (inject_Z (Qfloor q) < inject_Z (k + 1))%Q)
    by (rewrite inject_Z_plus; change (inject_Z 1) with 1%Q; lra).
  assert (H2 : (inject_Z k < inject_Z (Qfloor q + 1))%Q) by lra.
  rewrite <- Zlt_Qlt in H1, H2. lia.
Qed.

Lemma percent_score_or_0 (c : Contact) :
  score_is_percent c ->
  exists z : Z, (0 <= z <= 100)%Z /\ (score_or_0 c == inject_Z z)%Q.
Proof.
  unfold score_is_percent, score_or_0, number_or.
  destruct (score c) as [q|].
  - intros (z & Hz & Hq). exists z. split; [exact Hz|].
    destruct (Qeq_bool q 0) eqn:E; [|exact Hq].
    apply Qeq_bool_eq in E. now rewrite <- Hq, E.
  - intros _. exists 0%Z. split; [lia|reflexivity].
Qed.

Section Rounding.
Variable fl : Q -> Q.
Hypothesis fl_monotone : monotone fl.
Hypothesis fl_exact : exact_on_binary64 fl.

Lemma fl_comp (x y : Q) :
  (- (9007199254740992) <= x <= 9007199254740992)%Q ->
  (x == y)%Q -> (fl x == fl y)%Q.
Proof.
  intros [Hlo Hhi] E.
  apply Qle_antisym; apply fl_monotone; rewrite <- ?E; try assumption;
    apply Qle_refl.
Qed.

Lemma small_integer (z : Z) :
  (Z.abs z < 2 ^ 53)%Z ->
  (- (9007199254740992) <= inject_Z z <= 9007199254740992)%Q.
Proof.
  intros Hz.
  change 9007199254740992%Q with (inject_Z (2 ^ 53)).
  change (- inject_Z (2 ^ 53))%Q with (inject_Z (- 2 ^ 53)).
  rewrite <- !Zle_Qle. lia.
Qed.

Lemma fl_integer (z : Z) :
  (Z.abs z < 2 ^ 53)%Z -> (fl (inject_Z z) == inject_Z z)%Q.
Proof.
  intros Hz.
  assert (E : (inject_Z z == inject_Z z / inject_Z (2 ^ Z.of_nat 0))%Q).
  { simpl. unfold Qdiv. change (/ inject_Z 1)%Q with 1%Q. ring. }
  rewrite (fl_comp _ _ (small_integer z Hz) E), (fl_exact z 0 Hz);
    [now symmetry|lia].
Qed.

(** Sums of integer scores are exact. *)
Lemma sums_agree (cs : list Contact) :
  Forall score_is_percent cs ->
  forall (a : Z) (q q' : Q),
    (0 <= a)%Z -> (a + 100 * Z.of_nat (length cs) < 2 ^ 53)%Z ->
    (q == inject_Z a)%Q -> (q' == inject_Z a)%Q ->
    exists S : Z,
      (a <= S <= a + 100 * Z.of_nat (length cs))%Z /\
      (fold_left (fun sum c => fl (sum + score_or_0 c)) cs q
       == inject_Z S)%Q /\
      (fold_left (fun sum c => sum + score_or_0 c) cs q' == inject_Z S)%Q.
Proof.
  induction 1 as [|c cs Hc Hcs IH]; intros a q q' Ha Hb Hq Hq'.
  - exists a. simpl. repeat split; try assumption; lia.
  - cbn [fold_left].
    destruct (percent_score_or_0 c Hc) as (z & Hz & Ez).
    cbn [length] in Hb. rewrite Nat2Z.inj_succ in Hb.
    assert (Esum : (q + score_or_0 c == inject_Z (a + z))%Q)
      by (rewrite inject_Z_plus, Hq, Ez; reflexivity).
    assert (Esum' : (q' + score_or_0 c == inject_Z (a + z))%Q)
      by (rewrite inject_Z_plus, Hq', Ez; reflexivity).
    assert (Efl : (fl (q + score_or_0 c) == inject_Z (a + z))%Q).
    { rewrite (fl_comp _ (inject_Z (a + z))).
      - apply fl_integer. lia.
      - rewrite Esum. apply small_integer. lia.
      - exact Esum. }
    destruct (IH (a + z)%Z _ _ ltac:(lia) ltac:(lia) Efl Esum')
      as (S & HS & E1 & E2).
    exists S. cbn [length]. rewrite Nat2Z.inj_succ.
    repeat split; try assumption; lia.
Qed.

(** Rounding a quotient of small integers does not move it across a half
    integer. *)
Lemma round_quotient (S n : Z) (x : Q) :
  (0 <= S <= 100 * n)%Z -> (0 < n < 2 ^ 32)%Z ->
  (x == inject_Z S / inject_Z n)%Q ->
  Qfloor (fl x + (1 # 2)) = Qfloor (x + (1 # 2)).
Proof.
  intros HS Hn Ex.
  set (k := Qfloor (x + (1 # 2))).
  pose proof (Qfloor_le (x + (1 # 2))) as Hlo.
  pose proof (Qlt_floor (x + (1 # 2))) as Hhi.
  fold k in Hlo, Hhi.
  rewrite inject_Z_plus in Hhi. change (inject_Z 1) with 1%Q in Hhi.
  assert (HN : (0 < inject_Z n)%Q) by (rewrite <- (Zlt_Qlt 0); lia).
  assert (HN32 : (inject_Z n < inject_Z (2 ^ 32))%Q)
    by (rewrite <- Zlt_Qlt; lia).
  assert (HS0 : (0 <= inject_Z S)%Q) by (rewrite <- (Zle_Qle 0); lia).
  assert (HS100 : (inject_Z S <= 100 * inject_Z n)%Q).
  { change 100%Q with (inject_Z 100). rewrite <- inject_Z_mult, <- Zle_Qle.
    lia. }
  assert (ExN : (x * inject_Z n == inject_Z S)%Q).
  { rewrite Ex. field. intros E. rewrite E in HN. now apply Qlt_irrefl in HN. }
  assert (Hx0 : (0 <= x)%Q).
  { rewrite Ex. apply Qle_shift_div_l; [exact HN|]. lra. }
  assert (Hx100 : (x <= 100)%Q).
  { rewrite Ex. apply Qle_shift_div_r; [exact HN|]. lra. }
  assert (Hk : (0 <= k <= 100)%Z).
  { split.
    - change 0%Z with (Qfloor 0). apply Qfloor_resp_le. lra.
    - change 100%Z with (Qfloor (100 + (1 # 2))). apply Qfloor_resp_le. lra. }
  (* the integers [2 S] and [(2 k + 1) n] differ by one at least *)
  assert (Hint : (2 * S + 1 <= (2 * k + 1) * n)%Z).
  { assert (Hlt : (2 * S < (2 * k + 1) * n)%Z); [|lia].
    rewrite Zlt_Qlt, !inject_Z_mult, inject_Z_plus, inject_Z_mult.
    change (inject_Z 2) with 2%Q. change (inject_Z 1) with 1%Q.
    rewrite <- ExN.
    assert (Hprod : (0 < (inject_Z k + (1 # 2) - x) * inject_Z n)%Q)
      by (apply Qmult_lt_0_compat; lra).
    lra. }
  assert (HintQ : (2 * inject_Z S + 1
                   <= (2 * inject_Z k + 1) * inject_Z n)%Q).
  { rewrite Zle_Qle in Hint.
    rewrite inject_Z_plus, !inject_Z_mult, inject_Z_plus, inject_Z_mult
      in Hint.
    exact Hint. }
  (* two numbers of binary64 around [x] *)
  set (lo := (inject_Z (2 * k - 1) / inject_Z (2 ^ Z.of_nat 1))%Q).
  set (hi := (inject_Z ((2 * k + 1) * 2 ^ 32 - 1)
              / inject_Z (2 ^ Z.of_nat 33))%Q).
  assert (Elo : (lo == inject_Z k - (1 # 2))%Q).
  { unfold lo. unfold Z.sub. rewrite inject_Z_plus, inject_Z_mult.
    change (inject_Z (2 ^ Z.of_nat 1)) with 2%Q.
    change (inject_Z 2) with 2%Q. change (inject_Z (- (1))) with (- (1))%Q.
    field. }
  assert (Ehi : (hi == inject_Z k + (1 # 2) - (1 # 8589934592))%Q).
  { unfold hi. unfold Z.sub.
    rewrite inject_Z_plus, inject_Z_mult, inject_Z_plus, inject_Z_mult.
    change (inject_Z (2 ^ Z.of_nat 33)) with 8589934592%Q.
    change (inject_Z (2 ^ 32)) with 4294967296%Q.
    change (inject_Z 2) with 2%Q. change (inject_Z 1) with 1%Q.
    change (inject_Z (- (1))) with (- (1))%Q.
    field. }
  assert (Hflo : (fl lo == lo)%Q) by (apply fl_exact; lia).
  assert (Hfhi : (fl hi == hi)%Q) by (apply fl_exact; lia).
  assert (Hxlo : (lo <= x)%Q) by (rewrite Elo; lra).
  assert (Hxhi : (x <= hi)%Q).
  { rewrite Ehi.
    assert (Hprod : (0 <= (inject_Z k + (1 # 2) - (1 # 8589934592) - x)
                          * inject_Z n)%Q); [|].
    { change (inject_Z (2 ^ 32)) with 4294967296%Q in HN32.
      assert (E : ((inject_Z k + (1 # 2) - (1 # 8589934592) - x) * inject_Z n
                   == ((2 * inject_Z k + 1) * inject_Z n
                       - 2 * inject_Z S - 1) * (1 # 2)
                      + ((1 # 2) - inject_Z n * (1 # 8589934592)))%Q)
        by (rewrite <- ExN; ring).
      rewrite E. lra. }
    destruct (Qlt_le_dec hi x) as [Hgt|Hle]; [|now rewrite <- Ehi].
    exfalso. rewrite Ehi in Hgt.
    assert (Hneg : (0 < (x - (inject_Z k + (1 # 2) - (1 # 8589934592)))
                         * inject_Z n)%Q)
      by (apply Qmult_lt_0_compat; lra).
    assert (E : ((x - (inject_Z k + (1 # 2) - (1 # 8589934592))) * inject_Z n
                 == - ((inject_Z k + (1 # 2) - (1 # 8589934592) - x)
                       * inject_Z n))%Q) by ring.
    rewrite E in Hneg. lra. }
  assert (HkQ : (0 <= inject_Z k <= 100)%Q).
  { change 100%Q with (inject_Z 100). rewrite <- (Zle_Qle 0), <- Zle_Qle.
    exact Hk. }
  assert (H1 : (lo <= fl x)%Q)
    by (rewrite <- Hflo; apply fl_monotone; lra).
  assert (H2 : (fl x <= hi)%Q)
    by (rewrite <- Hfhi; apply fl_monotone; lra).
  apply Qfloor_unique; lra.
Qed.

Lemma percent_average (cs : list Contact) :
  Forall score_is_percent cs ->
  (Z.of_nat (length cs) < 2 ^ 32)%Z ->
  avgScore_with fl cs = avgScore (stats cs).
Proof.
  intros Hall Hlen. unfold avgScore_with, stats; simpl.
  destruct cs as [|c cs]; [reflexivity|].
  change (0 <? length (c :: cs)) with true. cbv iota.
  destruct (sums_agree (c :: cs) Hall 0 0 0 ltac:(lia) ltac:(lia)
              ltac:(reflexivity) ltac:(reflexivity))
    as (S & HS & E1 & E2).
  unfold Math_round.
  rewrite (round_quotient S (Z.of_nat (length (c :: cs)))).
  - apply Qfloor_comp. now rewrite E1, E2.
  - lia.
  - cbn [length] in *. lia.
  - now rewrite E1.
Qed.

End Rounding.

(** C2 (amended).  For every list of fewer than 2^32 contacts (every array)
    whose scores, where present, are integers between 0 and 100, and for
    every rounding of sums and quotients that is monotone and exact on the
    numbers of binary64, as the rounding of binary64 is: the average is 0
    for the empty list and otherwise the arithmetic mean of the scores, a
    missing score counting as 0, rounded to the nearest integer (a tie
    goes to the larger one); it is also what exact arithmetic gives. *)
Theorem average_of_percent_scores (fl : Q -> Q) (cs : list Contact) :
  monotone fl -> exact_on_binary64 fl ->
  Forall score_is_percent cs ->
  (Z.of_nat (length cs) < 2 ^ 32)%Z ->
  (cs = [] -> avgScore_with fl cs = 0%Z) /\
  (cs <> [] ->
     avgScore_with fl cs = Qfloor (arithmetic_mean cs + (1 # 2)) /\
     nearest_integer (avgScore_with fl cs) (arithmetic_mean cs)) /\
  avgScore_with fl cs = avgScore (stats cs).
Proof.
  intros Hmono Hexact Hall Hlen.
  pose proof (percent_average fl Hmono Hexact cs Hall Hlen) as E.
  split; [intros ->; reflexivity|].
  split; [|exact E].
  intros Hne. rewrite E. now apply exact_average_rounded_mean.
Qed.

Lemma average_of_percent_scores_witness :
  avgScore_with (fun q => q) Samples.three_scored
  = Qfloor (arithmetic_mean Samples.three_scored + (1 # 2)).
Proof.
  assert (Hmono : monotone (fun q => q)) by (intros x y _ H _; exact H).
  assert (Hexact : exact_on_binary64 (fun q => q))
    by (intros m j _ _; apply Qeq_refl).
  assert (Hall : Forall score_is_percent Samples.three_scored).
  { repeat constructor.
    - exists 10%Z. split; [lia|reflexivity].
    - exists 25%Z. split; [lia|reflexivity]. }
  apply (proj1 (proj2 (average_of_percent_scores (fun q => q)
                         Samples.three_scored Hmono Hexact Hall
                         ltac:(simpl; lia)))).
  discriminate.
Defined.

Example binary64_agrees_on_percent_scores :
  Binary64.avgScore Samples.three_scored
    = Some (avgScore (stats Samples.three_scored)) /\
  Binary64.avgScore (MoreSamples.scored [100%Q; 0%Q; 37%Q; 12%Q; 99%Q; 50%Q; 51%Q])
    = Some (avgScore (stats (MoreSamples.scored [100%Q; 0%Q; 37%Q; 12%Q; 99%Q; 50%Q; 51%Q]))).
Proof. split; vm_compute; reflexivity. Qed.

(** ** The aggregates are functions of the contact list *)

Lemma nth_error_at_end (h t : Heap.Heap) (x : Heap.HeapObject) :
  nth_error (h ++ x :: t) (length h) = Some x.
Proof.
  rewrite nth_error_app2 by lia. now rewrite Nat.sub_diag.
Qed.

Lemma update_at_end (h t : Heap.Heap) (x y : Heap.HeapObject) :
  Heap.update (length h) y (h ++ x :: t) = h ++ y :: t.
Proof.
  induction h as [|z h IH]; simpl; [reflexivity|]. now rewrite IH.
Qed.

Lemma tally_loop_run (key : Contact -> string) (cs : list Contact)
  (o : Obj) (h t : Heap.Heap) :
  Programs.tally_loop key (length h) cs (h ++ Heap.HObject o :: t)
  = (tt, h ++ Heap.HObject (fold_left (tally_step key) cs o) :: t).
Proof.
  revert o.
  induction cs as [|c cs IH]; intros o.
  - reflexivity.
  - unfold Programs.tally_loop in *. cbn [Programs.forEach fold_left].
    unfold Heap.bind at 1. unfold Heap.bind at 1. unfold Heap.load.
    rewrite nth_error_at_end. unfold Heap.store.
    rewrite update_at_end. apply IH.
Qed.

(** A group table is computed in an object of its own, which is all the
    run adds to the heap. *)
Lemma group_table_run (key : Contact -> string) (cs : list Contact)
  (h : Heap.Heap) :
  Programs.group_table key cs h
  = (Object_entries (tally key cs), h ++ [Heap.HObject (tally key cs)]).
Proof.
  unfold Programs.group_table, Heap.bind, Heap.alloc.
  rewrite tally_loop_run.
  unfold Programs.entries_of, Heap.bind, Heap.load, Heap.ret.
  now rewrite nth_error_at_end.
Qed.

Lemma alloc_all_run (xs : list Heap.HeapObject) (h : Heap.Heap) :
  Programs.alloc_all xs h = (seq (length h) (length xs), h ++ xs).
Proof.
  revert h.
  induction xs as [|x xs IH]; intros h; simpl.
  - unfold Heap.ret. now rewrite app_nil_r.
  - unfold Heap.bind, Heap.alloc, Heap.ret. rewrite IH.
    rewrite length_app, <- app_assoc. simpl.
    now rewrite Nat.add_1_r.
Qed.

Lemma find_incr_length (q : Q) (rs : list Range) :
  length (find_incr q rs) = length rs.
Proof.
  induction rs as [|r rs IH]; simpl; [reflexivity|].
  destruct (in_range q r); simpl; auto.
Qed.

Lemma range_cell (h : Heap.Heap) (pre rs : list Range) (r : Range)
  (t : Heap.Heap) :
  h ++ map Heap.HRange (pre ++ r :: rs) ++ t
  = (h ++ map Heap.HRange pre) ++ Heap.HRange r
      :: (map Heap.HRange rs ++ t).
Proof.
  rewrite map_app. simpl. now rewrite <- !app_assoc.
Qed.

Lemma range_cell_ref (h : Heap.Heap) (pre : list Range) :
  length h + length pre = length (h ++ map Heap.HRange pre).
Proof.
  now rewrite length_app, length_map.
Qed.

(** Counting a score updates, in place, the first range that matches. *)
Lemma count_score_run (c : Contact) (h t : Heap.Heap) (rs pre : list Range) :
  Programs.count_score (seq (length h + length pre) (length rs)) c
    (h ++ map Heap.HRange (pre ++ rs) ++ t)
  = (tt, h ++ map Heap.HRange (pre ++ find_incr (score_or_0 c) rs) ++ t).
Proof.
  revert pre.
  induction rs as [|r rs IH]; intros pre.
  - reflexivity.
  - cbn [length seq find_incr].
    unfold Programs.count_score in *. cbn [Programs.find_ref].
    unfold Heap.bind at 1. unfold Heap.bind at 1. unfold Heap.load at 1.
    rewrite range_cell, range_cell_ref, nth_error_at_end.
    destruct (in_range (score_or_0 c) r) eqn:E.
    + unfold Heap.ret, Programs.increment_count, Heap.bind, Heap.load,
        Heap.store.
      rewrite nth_error_at_end, update_at_end.
      now rewrite range_cell.
    + specialize (IH (pre ++ [r])). unfold Heap.bind in IH.
      rewrite <- !app_assoc in IH. cbn [app] in IH.
      rewrite range_cell in IH.
      rewrite length_app in IH. cbn [length] in IH.
      replace (length h + (length pre + 1))
        with (S (length (h ++ map Heap.HRange pre))) in IH
        by (rewrite length_app, length_map; lia).
      exact IH.
Qed.

Lemma read_ranges_run (h t : Heap.Heap) (rs pre : list Range) :
  Programs.read_ranges (seq (length h + length pre) (length rs))
    (h ++ map Heap.HRange (pre ++ rs) ++ t)
  = (map (fun r => (range r, count r)) rs,
     h ++ map Heap.HRange (pre ++ rs) ++ t).
Proof.
  revert pre.
  induction rs as [|r rs IH]; intros pre.
  - reflexivity.
  - cbn [length seq Programs.read_ranges map].
    unfold Heap.bind at 1. unfold Heap.load at 1.
    rewrite range_cell, range_cell_ref, nth_error_at_end.
    unfold Heap.bind.
    specialize (IH (pre ++ [r])).
    rewrite <- !app_assoc in IH. cbn [app] in IH.
    rewrite range_cell in IH.
    rewrite length_app in IH. cbn [length] in IH.
    replace (length h + (length pre + 1))
      with (S (length (h ++ map Heap.HRange pre))) in IH
      by (rewrite length_app, length_map; lia).
    rewrite IH. unfold Heap.ret. now rewrite <- range_cell.
Qed.

Lemma score_loop_run (cs : list Contact) (h : Heap.Heap) (rs : list Range) :
  Programs.forEach
    (fun c => rs' <~ Programs.elements (length h + length rs) ;;
              Programs.count_score rs' c) cs
    (h ++ map Heap.HRange rs ++ [Heap.HArray (seq (length h) (length rs))])
  = (tt,
     h ++ map Heap.HRange
            (fold_left (fun rs' c => find_incr (score_or_0 c) rs') cs rs)
       ++ [Heap.HArray (seq (length h) (length rs))]).
Proof.
  revert rs.
  induction cs as [|c cs IH]; intros rs.
  - reflexivity.
  - cbn [Programs.forEach fold_left].
    unfold Heap.bind at 1. unfold Heap.bind at 1.
    unfold Programs.elements at 1. unfold Heap.bind at 1.
    unfold Heap.load at 1, Heap.ret at 1.
    assert (Hcell :
      nth_error
        (h ++ map Heap.HRange rs
           ++ [Heap.HArray (seq (length h) (length rs))])
        (length h + length rs)
      = Some (Heap.HArray (seq (length h) (length rs)))).
    { rewrite app_assoc.
      rewrite (range_cell_ref h rs). apply nth_error_at_end. }
    rewrite Hcell.
    pose proof (count_score_run c h
                  [Heap.HArray (seq (length h) (length rs))] rs []) as Hrun.
    cbn [app] in Hrun. rewrite Nat.add_0_r in Hrun.
    rewrite Hrun.
    specialize (IH (find_incr (score_or_0 c) rs)).
    rewrite find_incr_length in IH. exact IH.
Qed.

(** The score table is computed in five range objects and one array of
    its own. *)
Lemma scoreData_run (cs : list Contact) (h : Heap.Heap) :
  exists ext, Programs.scoreData cs h = (scoreData cs, h ++ ext).
Proof.
  unfold Programs.scoreData.
  unfold Heap.bind at 1. rewrite alloc_all_run.
  unfold Heap.bind at 1. unfold Heap.alloc at 1.
  rewrite length_app, !length_map.
  unfold Heap.bind at 1.
  rewrite <- app_assoc.
  rewrite (score_loop_run cs h ranges0).
  set (final := fold_left (fun rs' c => find_incr (score_or_0 c) rs')
                          cs ranges0).
  assert (Hlen : length final = length ranges0).
  { unfold final. clear. generalize ranges0 as rs.
    induction cs as [|c cs IH]; intros rs; simpl; [reflexivity|].
    now rewrite IH, find_incr_length. }
  unfold Heap.bind at 1. unfold Programs.elements, Heap.bind, Heap.load,
    Heap.ret.
  assert (Hcell :
    nth_error
      (h ++ map Heap.HRange final
         ++ [Heap.HArray (seq (length h) (length ranges0))])
      (length h + length ranges0)
    = Some (Heap.HArray (seq (length h) (length ranges0)))).
  { rewrite app_assoc, <- Hlen.
    rewrite (range_cell_ref h final). apply nth_error_at_end. }
  rewrite Hcell.
  pose proof (read_ranges_run h
                [Heap.HArray (seq (length h) (length ranges0))] final [])
    as Hread.
  cbn [app] in Hread. rewrite Nat.add_0_r in Hread.
  rewrite Hlen in Hread. rewrite Hread.
  eexists. reflexivity.
Qed.

(** What the five programs compute, and what they leave in the heap. *)
Lemma aggregates_run (fl : Q -> Q) (cs : list Contact) (h : Heap.Heap) :
  exists ext,
    Programs.aggregates fl cs h
    = (Programs.mkAggregates (stats_with fl cs) (sourceData cs)
         (industryData cs) (segmentData cs) (scoreData cs),
       h ++ ext).
Proof.
  unfold Programs.aggregates, Programs.sourceData, Programs.industryData,
    Programs.segmentData.
  unfold Heap.bind at 1. rewrite group_table_run.
  unfold Heap.bind at 1. unfold Heap.bind at 1. rewrite group_table_run.
  unfold Heap.ret at 1.
  unfold Heap.bind at 1. rewrite group_table_run.
  unfold Heap.bind at 1.
  destruct (scoreData_run cs
              (((h ++ [Heap.HObject (tally source_key cs)])
                  ++ [Heap.HObject (tally industry_key cs)])
                 ++ [Heap.HObject (tally segment_key cs)]))
    as (ext & Hrun).
  rewrite Hrun. unfold Heap.ret.
  eexists. rewrite <- !app_assoc. reflexivity.
Qed.

(** C7.  Every aggregate of the dashboard depends on the contacts alone.
    The programs that compute them work in objects and arrays they create
    themselves: whatever the heap holds when they start, such as what an
    earlier computation left there, they give the same [stats],
    [sourceData], [industryData], [segmentData] and [scoreData], and they
    change nothing that was in the heap. *)
Theorem aggregates_deterministic (fl : Q -> Q) (cs : list Contact)
  (h h' : Heap.Heap) :
  fst (Programs.aggregates fl cs h) = fst (Programs.aggregates fl cs h') /\
  fst (Programs.aggregates fl cs (snd (Programs.aggregates fl cs h)))
    = fst (Programs.aggregates fl cs h) /\
  firstn (length h) (snd (Programs.aggregates fl cs h)) = h.
Proof.
  destruct (aggregates_run fl cs h) as (ext & E).
  destruct (aggregates_run fl cs h') as (ext' & E').
  destruct (aggregates_run fl cs (h ++ ext)) as (ext'' & E'').
  rewrite E, E'. cbn [fst snd]. rewrite E''. cbn [fst].
  repeat split.
  rewrite firstn_app, Nat.sub_diag, firstn_all. simpl.
  now rewrite app_nil_r.
Qed.

(** The functions of [Dashboard] are what the programs compute; [stats]
    is [stats_with] without rounding. *)
Lemma programs_compute (fl : Q -> Q) (cs : list Contact) (h : Heap.Heap) :
  fst (Programs.aggregates fl cs h)
  = Programs.mkAggregates (stats_with fl cs) (sourceData cs)
      (industryData cs) (segmentData cs) (scoreData cs).
Proof.
  destruct (aggregates_run fl cs h) as (ext & E). now rewrite E.
Qed.

Lemma stats_is_exact (cs : list Contact) :
  stats cs = stats_with (fun q => q) cs.
Proof. reflexivity. Qed.

Example second_run_on_the_heap_of_the_first :
  let first := Programs.aggregates (fun q => q) Samples.three_scored [] in
  let second := Programs.aggregates (fun q => q) Samples.three_scored
                  (snd first) in
  fst second = fst first /\ length (snd first) = 9 /\
  length (snd second) = 18.
Proof. repeat split. Qed.

(** ** Fetching the contacts *)

(** C5.  [fetchContacts] asks the backend once, for the contact rows ordered
    by [contact_name]; it always completes, with [loading] false; [contacts]
    becomes the fetched rows (the empty list when the data is null) when
    the backend reports no error, and is left as it was otherwise. *)
Theorem fetchContacts_completes (supabase : SelectBackend) (s : State) :
  let s' := state_after (fetchContacts supabase) s in
  completion_of (fetchContacts supabase) s = Normal tt /\
  filter is_backend_request (trace_of (fetchContacts supabase) s) =
    [BackendSelect "contacts" select_columns "contact_name"] /\
  loading s' = false /\
  match supabase "contacts" select_columns "contact_name" with
  | Normal r =>
      match error r with
      | None =>
          contacts s' = match data r with Some rows => rows | None => [] end
      | Some _ => contacts s' = contacts s
      end
  | Throw _ => contacts s' = contacts s
  end.
Proof.
  unfold state_after, completion_of, trace_of, run, fetchContacts.
  unfold try_finally, try_catch, bind, call, setLoading, setContacts,
    modify, throw, emit.
  destruct (supabase "contacts" select_columns "contact_name") as [r|e];
    simpl.
  - destruct (error r); simpl; auto.
  - auto.
Qed.

(** ** Bulk delete *)

Lemma handleBulkDelete_run (env : Page.Env) (s : Page.State) :
  Page.selectedContacts s <> [] ->
  let ids := Page.selectedContacts s in
  run (Page.handleBulkDelete env) s =
  if Page.delete_reports_no_error env ids
  then
    if Page.audit_completes env ids
    then (Normal tt,
          Page.mkState (Page.viewMode s) (Page.showColumnCustomizer s)
                       (Page.showModal s) [] (Page.refreshTrigger s + 1),
          [BackendDelete "contacts" "id" ids;
           AuditBulkDelete "contacts" (length ids) ids;
           Page.success_toast (length ids)])
    else (Normal tt, s,
          [BackendDelete "contacts" "id" ids;
           AuditBulkDelete "contacts" (length ids) ids;
           Page.error_toast])
  else (Normal tt, s, [BackendDelete "contacts" "id" ids; Page.error_toast]).
Proof.
  intros Hne. cbv zeta.
  unfold run, Page.handleBulkDelete, Page.delete_reports_no_error,
    Page.audit_completes.
  unfold bind at 1. unfold get.
  destruct (Page.selectedContacts s) as [|i ids'] eqn:Eids; [congruence|].
  cbn [length Nat.eqb].
  unfold try_catch, bind, call, throw, emit, Page.setSelectedContacts,
    Page.setRefreshTrigger, modify.
  destruct (Page.supabase_delete_in env "contacts" "id" (i :: ids'))
    as [r|e]; simpl.
  - destruct (error r); simpl; [reflexivity|].
    destruct (Page.logBulkDelete env "contacts" (S (length ids')) (i :: ids'));
      reflexivity.
  - reflexivity.
Qed.

(** C3.  With a non-empty selection the handler sends the backend exactly
    one request: a delete on the contacts table for the rows whose id is
    among the selected ids. *)
Theorem bulk_delete_one_request (env : Page.Env) (s : Page.State) :
  Page.selectedContacts s <> [] ->
  filter is_backend_request (trace_of (Page.handleBulkDelete env) s) =
    [BackendDelete "contacts" "id" (Page.selectedContacts s)].
Proof.
  intros Hne. unfold trace_of.
  rewrite (handleBulkDelete_run env s Hne).
  destruct (Page.delete_reports_no_error env (Page.selectedContacts s));
    [destruct (Page.audit_completes env (Page.selectedContacts s))|];
    reflexivity.
Qed.

Lemma bulk_delete_one_request_witness :
  filter is_backend_request
    (trace_of (Page.handleBulkDelete Samples.env_ok) Samples.two_selected) =
    [BackendDelete "contacts" "id" ["c1"; "c2"]].
Proof.
  apply (bulk_delete_one_request Samples.env_ok Samples.two_selected).
  simpl. discriminate.
Defined.

(** C4, as stated, fails: the delete call reports no error, the audit
    logger then throws, and the selection is kept, the refresh trigger is
    not incremented and the error toast is shown. *)
Lemma no_error_does_not_imply_cleared :
  Page.delete_reports_no_error Samples.env_audit_throws
    (Page.selectedContacts Samples.two_selected) = true /\
  state_after (Page.handleBulkDelete Samples.env_audit_throws)
    Samples.two_selected = Samples.two_selected /\
  filter is_toast
    (trace_of (Page.handleBulkDelete Samples.env_audit_throws)
       Samples.two_selected) = [Page.error_toast].
Proof.
  repeat split.
Qed.

(** C4 (amended).  With a non-empty selection, the handler clears the
    selection and increments the refresh trigger if and only if the delete
    call reports no error and the audit-log call that follows completes;
    it then shows the success toast.  When the delete call reports an
    error, the page state is left unchanged and the destructive error
    toast is the only toast shown. *)
Theorem bulk_delete_outcome (env : Page.Env) (s : Page.State) :
  Page.selectedContacts s <> [] ->
  let ids := Page.selectedContacts s in
  let s' := state_after (Page.handleBulkDelete env) s in
  let toasts := filter is_toast (trace_of (Page.handleBulkDelete env) s) in
  ((Page.selectedContacts s' = [] /\
    Page.refreshTrigger s' = Page.refreshTrigger s + 1)
   <-> (Page.delete_reports_no_error env ids = true /\
        Page.audit_completes env ids = true)) /\
  (Page.delete_reports_no_error env ids = true ->
   Page.audit_completes env ids = true ->
   toasts = [Page.success_toast (length ids)]) /\
  (Page.delete_reports_no_error env ids = false ->
   s' = s /\ toasts = [Page.error_toast]).
Proof.
  intros Hne ids s' toasts.
  unfold s', toasts, state_after, trace_of.
  rewrite (handleBulkDelete_run env s Hne). fold ids.
  destruct (Page.delete_reports_no_error env ids);
    [destruct (Page.audit_completes env ids)|]; simpl.
  - repeat split; intros; discriminate.
  - split; [split|split].
    + intros [Hsel _]. contradiction.
    + intros [_ H]. discriminate.
    + intros _ H. discriminate.
    + intros H. discriminate.
  - split; [split|split].
    + intros [Hsel _]. contradiction.
    + intros [H _]. discriminate.
    + intros H. discriminate.
    + intros _. split; reflexivity.
Qed.

Lemma bulk_delete_outcome_witness :
  Page.selectedContacts
    (state_after (Page.handleBulkDelete Samples.env_ok) Samples.two_selected)
  = [] /\
  state_after (Page.handleBulkDelete Samples.env_delete_error)
    Samples.two_selected = Samples.two_selected.
Proof.
  split.
  - apply (proj1 (bulk_delete_outcome Samples.env_ok Samples.two_selected
                    ltac:(simpl; discriminate))).
    split; reflexivity.
  - apply (proj2 (proj2 (bulk_delete_outcome Samples.env_delete_error
                           Samples.two_selected ltac:(simpl; discriminate)))).
    reflexivity.
Defined.

Lemma handleBulkDelete_guard (env : Page.Env) (s : Page.State) :
  Page.selectedContacts s = [] ->
  run (Page.handleBulkDelete env) s = (Normal tt, s, []).
Proof.
  intros Hempty.
  unfold run, Page.handleBulkDelete, bind, get.
  rewrite Hempty. reflexivity.
Qed.

(** C10.  With an empty selection the handler does nothing: no request, no
    audit entry, no toast, and the page state is the one it started from. *)
Theorem bulk_delete_empty_noop (env : Page.Env) (s : Page.State) :
  Page.selectedContacts s = [] ->
  run (Page.handleBulkDelete env) s = (Normal tt, s, []).
Proof.
  exact (handleBulkDelete_guard env s).
Qed.

Lemma bulk_delete_empty_noop_witness :
  run (Page.handleBulkDelete Samples.env_ok) Page.initial
  = (Normal tt, Page.initial, []).
Proof.
  apply (bulk_delete_empty_noop Samples.env_ok Page.initial). reflexivity.
Defined.

(** ** The view toggle *)

Lemma handleBulkDelete_viewMode (env : Page.Env) (s : Page.State) :
  Page.viewMode (state_after (Page.handleBulkDelete env) s) = Page.viewMode s.
Proof.
  destruct (Page.selectedContacts s) as [|i ids] eqn:Esel.
  - unfold state_after. now rewrite handleBulkDelete_guard.
  - assert (Hne : Page.selectedContacts s <> []) by congruence.
    unfold state_after. rewrite (handleBulkDelete_run env s Hne).
    destruct (Page.delete_reports_no_error env (Page.selectedContacts s));
      [destruct (Page.audit_completes env (Page.selectedContacts s))|];
      reflexivity.
Qed.

Lemma handle_viewMode (env : Page.Env) (ev : Page.Event) (s : Page.State) :
  let v := Page.viewMode (state_after (Page.handle env ev) s) in
  v = Page.viewMode s \/ v = "table" \/ v = "analytics".
Proof.
  destruct ev; simpl; auto.
  left. apply handleBulkDelete_viewMode.
Qed.

Lemma reachable_viewMode (s : Page.State) :
  Page.reachable s ->
  Page.viewMode s = "table" \/ Page.viewMode s = "analytics".
Proof.
  induction 1 as [|s env ev Hs IH].
  - now left.
  - destruct (handle_viewMode env ev s) as [E|[E|E]]; rewrite E; auto.
Qed.

(** C6.  In every reachable state of the page [viewMode] is 'table' or
    'analytics', and the main content area holds one presentation: the
    analytics dashboard exactly when [viewMode] is 'analytics', the contact
    table exactly when it is 'table'. *)
Theorem view_mode_selects_presentation (s : Page.State) :
  Page.reachable s ->
  (Page.viewMode s = "table" \/ Page.viewMode s = "analytics") /\
  (Page.main_content s = Page.ContactAnalyticsDashboard
   <-> Page.viewMode s = "analytics") /\
  (Page.main_content s = Page.ContactTable (Page.table_props s)
   <-> Page.viewMode s = "table").
Proof.
  intros Hreach.
  pose proof (reachable_viewMode s Hreach) as Hmode.
  split; [exact Hmode|].
  unfold Page.main_content.
  destruct Hmode as [E|E]; rewrite E; simpl; split; split;
    intros; try reflexivity; discriminate.
Qed.

Lemma view_mode_selects_presentation_witness :
  Page.main_content
    (state_after (Page.handle Samples.env_ok Page.ClickAnalytics) Page.initial)
  = Page.ContactAnalyticsDashboard.
Proof.
  apply (proj1 (proj2 (view_mode_selects_presentation
    (state_after (Page.handle Samples.env_ok Page.ClickAnalytics) Page.initial)
    (Page.reach_step _ _ _ Page.reach_initial)))).
  reflexivity.
Defined.

(** * Further properties of the dashboard *)

(** ** One entry per group *)

(** X1.  The source table and the segment table list every group that
    occurs exactly once, except a group named [__proto__], which they
    never list.  The value of an entry is the number of contacts of the
    group, unless the group is named like a member of [Object.prototype]:
    then it is that member turned into a string, followed by one 1 for
    each contact.  The tables hold nothing else. *)
Theorem group_tables_are_histograms (cs : list Contact) :
  (NoDup (map group_name (sourceData cs)) /\
   forall (k : string) (v : Value),
     In (k, v) (sourceData cs) <->
     0 < occurrences source_key k cs /\ k <> "__proto__" /\
     v = expected_value k (occurrences source_key k cs)) /\
  (NoDup (map group_name (segmentData cs)) /\
   forall (k : string) (v : Value),
     In (k, v) (segmentData cs) <->
     0 < occurrences segment_key k cs /\ k <> "__proto__" /\
     v = expected_value k (occurrences segment_key k cs)).
Proof.
  split; apply entries_of_tally.
Qed.

Example expected_values :
  expected_value "web" 3 = Num 3 /\
  expected_value "toString" 2
  = Str "function toString() { [native code] }11".
Proof. split; reflexivity. Qed.

(** ** Contacts without a source *)

Lemma unknown_source_count (cs : list Contact) :
  occurrences source_key "Unknown" cs + withSource (stats cs) =
  length cs + length (filter Terms.source_is_unknown cs).
Proof.
  unfold occurrences, stats; simpl.
  induction cs as [|c cs IH]; simpl; [reflexivity|].
  unfold source_key, Terms.source_is_unknown, truthy_string, string_or in *.
  destruct (contact_source c) as [src|]; simpl.
  - destruct (String.eqb_spec src ""); simpl.
    + subst src. simpl. lia.
    + destruct (String.eqb_spec src "Unknown"); simpl; lia.
  - lia.
Qed.

(** X2.  The contacts counted under 'Unknown' in the source table are the
    contacts without a source (those the With Source card leaves out)
    together with those whose source is the text 'Unknown'; when there is
    one, the table has that entry. *)
Theorem unknown_source_slice (cs : list Contact) :
  occurrences source_key "Unknown" cs + withSource (stats cs) =
    totalContacts (stats cs) + length (filter Terms.source_is_unknown cs) /\
  (0 < occurrences source_key "Unknown" cs ->
   In ("Unknown", Num (occurrences source_key "Unknown" cs)) (sourceData cs)).
Proof.
  split.
  - apply unknown_source_count.
  - intros Hpos. apply (proj2 (entries_of_tally source_key cs)).
    split; [exact Hpos|]. split; [discriminate|reflexivity].
Qed.

Lemma unknown_source_slice_witness :
  In ("Unknown", Num 2)
     (sourceData [MoreSamples.with_source None;
                  MoreSamples.with_source (Some "web");
                  MoreSamples.with_source (Some "Unknown")]).
Proof.
  apply (proj2 (unknown_source_slice
                  [MoreSamples.with_source None;
                   MoreSamples.with_source (Some "web");
                   MoreSamples.with_source (Some "Unknown")])).
  vm_compute. lia.
Defined.

(** ** The summary cards *)






(** ** The order of the contacts *)

Lemma perm_filter_length (p : Contact -> bool) (cs cs' : list Contact) :
  Permutation cs cs' -> length (filter p cs) = length (filter p cs').
Proof.
  induction 1 as [|c l l' _ IH|c d l|l l' l'' _ IH1 _ IH2]; simpl.
  - reflexivity.
  - destruct (p c); simpl; auto.
  - destruct (p c), (p d); reflexivity.
  - congruence.
Qed.

Lemma perm_entries (key : Contact -> string) (cs cs' : list Contact) :
  Permutation cs cs' ->
  Permutation (Object_entries (tally key cs))
              (Object_entries (tally key cs')).
Proof.
  intros Hperm.
  destruct (entries_of_tally key cs) as [Hnd Hin].
  destruct (entries_of_tally key cs') as [Hnd' Hin'].
  apply NoDup_Permutation.
  - exact (NoDup_map_inv _ _ Hnd).
  - exact (NoDup_map_inv _ _ Hnd').
  - intros [k v]. rewrite Hin, Hin'.
    unfold occurrences. now rewrite (perm_filter_length _ _ _ Hperm).
Qed.

(** X4.  The three counts on the cards and the score table do not depend
    on the order in which the contacts are listed, and the source and
    segment tables keep the same entries, in a possibly different
    order. *)
Theorem order_of_contacts_immaterial (cs cs' : list Contact) :
  Permutation cs cs' ->
  totalContacts (stats cs) = totalContacts (stats cs') /\
  withCompany (stats cs) = withCompany (stats cs') /\
  withSource (stats cs) = withSource (stats cs') /\
  scoreData cs = scoreData cs' /\
  Permutation (sourceData cs) (sourceData cs') /\
  Permutation (segmentData cs) (segmentData cs').
Proof.
  intros Hperm.
  split; [|split; [|split; [|split; [|split]]]].
  - exact (Permutation_length Hperm).
  - now apply perm_filter_length.
  - now apply perm_filter_length.
  - rewrite !scoreData_closed. unfold count_between.
    now rewrite !(perm_filter_length _ _ _ Hperm).
  - now apply perm_entries.
  - now apply perm_entries.
Qed.

Lemma order_of_contacts_immaterial_witness :
  scoreData Samples.three_scored = scoreData (rev Samples.three_scored).
Proof.
  apply (order_of_contacts_immaterial Samples.three_scored
           (rev Samples.three_scored)).
  apply Permutation_rev.
Defined.

(** The industry table keeps what comes first among equals, and the
    average adds in binary64, so both depend on the order. *)
Example industryData_depends_on_order :
  industryData Samples.nine_industries
  <> industryData (rev Samples.nine_industries).
Proof. vm_compute. discriminate. Qed.

Example average_depends_on_order :
  Binary64.avgScore
    (MoreSamples.scored
       [MoreSamples.d0_1; MoreSamples.d3_8; MoreSamples.d0_6]) = Some 2%Z /\
  Binary64.avgScore
    (MoreSamples.scored
       [MoreSamples.d0_6; MoreSamples.d3_8; MoreSamples.d0_1]) = Some 1%Z.
Proof. split; vm_compute; reflexivity. Qed.

(** ** Contacts without a score *)

(** X5.  A contact without a score is counted in the first range, '0-20',
    and in no other. *)
Theorem unscored_counts_in_first_range
  (c : Contact) (before after : list Contact) :
  score c = None ->
  scoreData (before ++ c :: after)
  = Terms.bump_first (scoreData (before ++ after)).
Proof.
  intros Hnone.
  assert (E : score_or_0 c = 0%Q)
    by (unfold score_or_0, number_or; now rewrite Hnone).
  rewrite !scoreData_closed, !count_between_app, !count_between_cons.
  rewrite E. simpl Terms.bump_first.
  change (between 0 20 0) with true. change (between 21 40 0) with false.
  change (between 41 60 0) with false. change (between 61 80 0) with false.
  change (between 81 100 0) with false.
  cbv iota. rewrite !Nat.add_0_l.
  f_equal. f_equal. lia.
Qed.

Lemma unscored_counts_in_first_range_witness :
  scoreData [Samples.with_score 90; Samples.unscored]
  = Terms.bump_first (scoreData [Samples.with_score 90]).
Proof.
  apply (unscored_counts_in_first_range Samples.unscored
           [Samples.with_score 90] []).
  reflexivity.
Defined.

(** ** Industries with the same count *)

Lemma sort_insert_with_value (v : nat) (x : Group) (l : list Group) :
  is_count x = true -> Forall (fun g => is_count g = true) l ->
  Terms.with_value v (sort_insert by_value_desc x l)
  = Terms.with_value v (x :: l).
Proof.
  unfold Terms.with_value. intros Hx.
  induction 1 as [|y l Hy Hl IH]; [reflexivity|].
  cbn [sort_insert]. rewrite (by_value_desc_counts x y Hx Hy).
  destruct (Z.ltb_spec 0 (Z.of_nat (count_of y) - Z.of_nat (count_of x)));
    [|reflexivity].
  cbn [filter] in *. rewrite IH.
  destruct (Nat.eqb_spec (count_of x) v), (Nat.eqb_spec (count_of y) v);
    try reflexivity.
  lia.
Qed.

Lemma Array_sort_with_value (v : nat) (l : list Group) :
  Forall (fun g => is_count g = true) l ->
  Terms.with_value v (Array_sort by_value_desc l) = Terms.with_value v l.
Proof.
  induction 1 as [|x l Hx Hl IH]; [reflexivity|].
  cbn [Array_sort]. rewrite sort_insert_with_value.
  - unfold Terms.with_value in *. cbn [filter]. now rewrite IH.
  - exact Hx.
  - eapply Permutation_Forall; [apply Array_sort_perm|exact Hl].
Qed.

(** X6.  When no industry is named like a member of [Object.prototype]
    and there are at most 8 industry groups, the industry table holds all
    of them, and groups with the same count stay in the order in which
    the [industries] object lists them. *)
Theorem industry_ties_keep_order (cs : list Contact) (v : nat) :
  plain_names industry_key cs ->
  length (industries cs) <= 8 ->
  Permutation (industryData cs) (Object_entries (industries cs)) /\
  Terms.with_value v (industryData cs)
  = Terms.with_value v (Object_entries (industries cs)).
Proof.
  intros Hplain Hle. unfold industryData, slice0.
  rewrite firstn_all2.
  - split; [apply Permutation_sym, Array_sort_perm|].
    apply Array_sort_with_value. now apply plain_counts.
  - pose proof (Permutation_length (sorted_industries_perm cs)) as Hlen.
    unfold Group in *. lia.
Qed.

Lemma industry_ties_keep_order_witness :
  Terms.with_value 1 (industryData (map Samples.with_industry ["x"; "y"; "z"]))
  = [("x", Num 1); ("y", Num 1); ("z", Num 1)].
Proof.
  apply (proj2 (industry_ties_keep_order
                  (map Samples.with_industry ["x"; "y"; "z"]) 1
                  ltac:(repeat constructor)
                  ltac:(vm_compute; lia))).
Defined.

(** ** The colours of a pie *)

Lemma mapi_from_seq {A B : Type} (f : A -> nat -> B) (g : nat -> B)
  (k : nat) (l : list A) :
  (forall a i, f a i = g i) ->
  View.mapi_from f k l = map g (seq k (length l)).
Proof.
  intros Hf. revert k.
  induction l as [|a l IH]; intros k; simpl; [reflexivity|].
  now rewrite Hf, IH.
Qed.

Lemma cells_seq {A : Type} (data : list A) :
  View.cells data = map View.cell_fill (seq 0 (length data)).
Proof.
  unfold View.cells, View.Array_mapi. now apply mapi_from_seq.
Qed.

Lemma cell_fill_palette (i : nat) :
  exists col, View.cell_fill i = Some col /\ In col View.COLORS.
Proof.
  unfold View.cell_fill.
  destruct (nth_error View.COLORS (i mod length View.COLORS)) as [col|] eqn:E.
  - exists col. split; [reflexivity|]. eapply nth_error_In, E.
  - apply nth_error_None in E.
    pose proof (Nat.mod_upper_bound i (length View.COLORS)) as Hb.
    simpl in *. lia.
Qed.

Lemma cell_fill_period (i : nat) : View.cell_fill (i + 8) = View.cell_fill i.
Proof.
  unfold View.cell_fill.
  change (length View.COLORS) with 8.
  replace (i + 8) with (i + 1 * 8) by lia.
  now rewrite Nat.Div0.mod_add.
Qed.

(** X7.  Every cell of a pie gets a colour of the palette, never an
    undefined fill; the colours repeat after 8 cells, and with at most 8
    entries no two cells share a colour. *)
Theorem pie_cells_coloured {A : Type} (data : list A) :
  length (View.cells data) = length data /\
  (forall i, i < length data ->
     exists col, nth_error (View.cells data) i = Some (Some col) /\
                 In col View.COLORS) /\
  (forall i, i + 8 < length data ->
     nth_error (View.cells data) (i + 8) = nth_error (View.cells data) i) /\
  (length data <= 8 -> NoDup (View.cells data)).
Proof.
  rewrite cells_seq.
  split; [|split; [|split]].
  - now rewrite length_map, length_seq.
  - intros i Hi.
    destruct (cell_fill_palette i) as (col & Hcol & Hin).
    exists col. split; [|exact Hin].
    rewrite nth_error_map, nth_error_seq.
    destruct (Nat.ltb_spec i (length data)); [|lia].
    simpl. now rewrite Hcol.
  - intros i Hi.
    rewrite !nth_error_map, !nth_error_seq.
    destruct (Nat.ltb_spec (i + 8) (length data)); [|lia].
    destruct (Nat.ltb_spec i (length data)); [|lia].
    simpl. now rewrite cell_fill_period.
  - intros Hle.
    destruct (length data) as [|[|[|[|[|[|[|[|[|n]]]]]]]]]; try lia;
      vm_compute; repeat constructor; simpl; intuition discriminate.
Qed.

Lemma pie_cells_coloured_witness :
  NoDup (View.cells [("web", 2); ("referral", 1); ("Unknown", 4)]).
Proof.
  apply (proj2 (proj2 (proj2 (pie_cells_coloured
           [("web", 2); ("referral", 1); ("Unknown", 4)])))).
  simpl. lia.
Defined.

(** ** What is shown when there is nothing to show *)

Lemma tally_entries_nil (key : Contact -> string) (cs : list Contact) :
  Object_entries (tally key cs) = [] <->
  Forall (fun c => key c = "__proto__") cs.
Proof.
  destruct (entries_of_tally key cs) as [_ Hin].
  split.
  - intros E. apply Forall_forall. intros c Hc.
    destruct (String.eqb_spec (key c) "__proto__") as [|Hne]; [assumption|].
    exfalso.
    assert (Hpos : 0 < occurrences key (key c) cs).
    { unfold occurrences.
      assert (Hf : In c (filter (fun c0 => String.eqb (key c0) (key c)) cs))
        by (apply filter_In; split; [exact Hc|apply String.eqb_refl]).
      destruct (filter _ cs); [contradiction|simpl; lia]. }
    assert (Hentry : In (key c, expected_value (key c)
                                  (occurrences key (key c) cs))
                        (Object_entries (tally key cs)))
      by (apply Hin; auto).
    rewrite E in Hentry. contradiction.
  - intros Hall.
    destruct (Object_entries (tally key cs)) as [|[k v] l] eqn:E;
      [reflexivity|].
    exfalso.
    destruct (proj1 (Hin k v) (or_introl eq_refl)) as (Hpos & Hk & _).
    destruct (occurrences_positive key k cs Hpos) as (c & Hc & Hkc).
    rewrite Forall_forall in Hall. specialize (Hall c Hc). congruence.
Qed.

Lemma industryData_nil (cs : list Contact) :
  industryData cs = [] <-> Forall (fun c => industry_key c = "__proto__") cs.
Proof.
  rewrite <- tally_entries_nil. fold (industries cs).
  unfold industryData, slice0.
  pose proof (Array_sort_perm by_value_desc (Object_entries (industries cs)))
    as Hperm.
  split.
  - intros E.
    destruct (Array_sort by_value_desc (Object_entries (industries cs)));
      [|discriminate].
    now apply Permutation_nil.
  - intros E. rewrite E. reflexivity.
Qed.

Lemma pie_placeholder (data : list Group) :
  View.pie_or_placeholder data = View.NoData <-> data = [].
Proof.
  unfold View.pie_or_placeholder.
  destruct data; simpl; split; intros; try reflexivity; discriminate.
Qed.

Lemma bars_placeholder (data : list Group) :
  View.bars_or_placeholder data = View.NoData <-> data = [].
Proof.
  unfold View.bars_or_placeholder.
  destruct data; simpl; split; intros; try reflexivity; discriminate.
Qed.

(** X8.  Once loading is over the dashboard shows the board.  The source
    chart is replaced by 'No data available' exactly when no contact is in
    a group of the source table, that is when the list is empty or every
    source is [__proto__]; likewise the segment and industry charts.  So,
    when no contact has such a name, the placeholders are shown exactly
    for the empty list.  The score chart is always drawn. *)
Theorem placeholders_iff_no_groups (s : State) :
  loading s = false ->
  exists cards source segment industry,
    View.render s =
      View.Board cards source segment industry
                 (View.BarChart (scoreData (contacts s))) /\
    View.total_card cards = length (contacts s) /\
    (source = View.NoData <->
     Forall (fun c => source_key c = "__proto__") (contacts s)) /\
    (segment = View.NoData <->
     Forall (fun c => segment_key c = "__proto__") (contacts s)) /\
    (industry = View.NoData <->
     Forall (fun c => industry_key c = "__proto__") (contacts s)) /\
    (Forall (fun c => source_key c <> "__proto__" /\
                      segment_key c <> "__proto__" /\
                      industry_key c <> "__proto__") (contacts s) ->
     (source = View.NoData <-> contacts s = []) /\
     (segment = View.NoData <-> contacts s = []) /\
     (industry = View.NoData <-> contacts s = [])).
Proof.
  intros Hl. unfold View.render. rewrite Hl.
  do 4 eexists. split; [reflexivity|].
  split; [reflexivity|].
  assert (Hs := tally_entries_nil source_key (contacts s)).
  assert (Hg := tally_entries_nil segment_key (contacts s)).
  assert (Hi := industryData_nil (contacts s)).
  fold (sourceData (contacts s)) in Hs.
  fold (segmentData (contacts s)) in Hg.
  rewrite !pie_placeholder, bars_placeholder.
  split; [exact Hs|]. split; [exact Hg|]. split; [exact Hi|].
  intros Hnone. rewrite Hs, Hg, Hi.
  destruct (contacts s) as [|c cs].
  - repeat split; intros; constructor.
  - inversion Hnone as [|? ? (H1 & H2 & H3) _]; subst.
    repeat split; intros H; try discriminate; inversion H; contradiction.
Qed.

Lemma placeholders_iff_no_groups_witness :
  exists cards source segment industry,
    View.render Samples.loaded =
      View.Board cards source segment industry
                 (View.BarChart (scoreData (contacts Samples.loaded))) /\
    View.total_card cards = 1 /\
    source <> View.NoData.
Proof.
  destruct (placeholders_iff_no_groups Samples.loaded eq_refl)
    as (cards & source & segment & industry & Hr & Ht & _ & _ & _ & Hplain).
  exists cards, source, segment, industry.
  split; [exact Hr|]. split; [exact Ht|].
  assert (Hnone : Forall (fun c => source_key c <> "__proto__" /\
                                   segment_key c <> "__proto__" /\
                                   industry_key c <> "__proto__")
                         (contacts Samples.loaded))
    by (repeat constructor; discriminate).
  destruct (Hplain Hnone) as ((Hsrc & _) & _).
  intros E. specialize (Hsrc E). discriminate.
Defined.

(** ** Fetching again *)

(** X9.  Fetching twice in a row from the same backend answer leaves the
    dashboard in the state the first fetch left it in. *)
Theorem refetch_idempotent (supabase : SelectBackend) (s : State) :
  state_after (fetchContacts supabase)
    (state_after (fetchContacts supabase) s)
  = state_after (fetchContacts supabase) s.
Proof.
  unfold state_after, run, fetchContacts.
  unfold try_finally, try_catch, bind, call, setLoading, setContacts,
    modify, throw, emit.
  destruct (supabase "contacts" select_columns "contact_name") as [r|e];
    simpl; [destruct (error r)|]; reflexivity.
Qed.

Lemma fetch_state (supabase : SelectBackend) (s : State) :
  state_after (fetchContacts supabase) s =
  mkState
    (match supabase "contacts" select_columns "contact_name" with
     | Normal r =>
         match error r with
         | Some _ => contacts s
         | None => match data r with Some rows => rows | None => [] end
         end
     | Throw _ => contacts s
     end) false.
Proof.
  unfold state_after, run, fetchContacts.
  unfold try_finally, try_catch, bind, call, setLoading, setContacts,
    modify, throw, emit.
  destruct (supabase "contacts" select_columns "contact_name") as [r|e];
    simpl; [destruct (error r)|]; reflexivity.
Qed.

(** X10.  After a fetch the spinner is gone.  A fetch that fails leaves the
    board as it is drawn from the contacts already held, so a failed first
    fetch shows the same board as a fetch that finds no row: zero on the
    cards, no source, segment or industry chart, and empty score ranges. *)
Theorem failed_fetch_board (supabase : SelectBackend) (s : State) :
  View.render (state_after (fetchContacts supabase) s) <> View.Spinner /\
  (Terms.fetch_fails supabase = true ->
   View.render (state_after (fetchContacts supabase) s)
     = View.render (mkState (contacts s) false) /\
   View.render (state_after (fetchContacts supabase) initial)
     = Terms.empty_board) /\
  (Terms.fetch_is_empty supabase = true ->
   View.render (state_after (fetchContacts supabase) s) = Terms.empty_board).
Proof.
  rewrite !fetch_state. unfold Terms.fetch_fails, Terms.fetch_is_empty.
  split; [unfold View.render; simpl; discriminate|].
  destruct (supabase "contacts" select_columns "contact_name") as [r|e].
  - destruct (error r).
    + split; [intros _; split; reflexivity|discriminate].
    + split; [discriminate|].
      destruct (data r) as [[|c rows]|]; try discriminate;
        intros _; reflexivity.
  - split; [intros _; split; reflexivity|discriminate].
Qed.

Lemma failed_fetch_board_witness :
  View.render (state_after (fetchContacts MoreSamples.select_rejects) initial)
  = View.render (state_after (fetchContacts MoreSamples.select_null)
                   Samples.loaded).
Proof.
  transitivity Terms.empty_board.
  - apply (proj1 (proj2 (failed_fetch_board MoreSamples.select_rejects
                           initial))).
    reflexivity.
  - symmetry.
    apply (proj2 (proj2 (failed_fetch_board MoreSamples.select_null
                           Samples.loaded))).
    reflexivity.
Defined.

(** * Further properties of the contacts page *)

(** ** Switching views *)

(** X11.  Going to the analytics view and back changes nothing but the
    view: the table comes back with the props it had, and while the
    analytics view is shown the menu still offers to delete the selection
    made in the table. *)
Theorem view_round_trip (env : Page.Env) (isImporting : bool)
  (s : Page.State) :
  let analytics := state_after (Page.handle env Page.ClickAnalytics) s in
  let back := state_after (Page.handle env Page.ClickList) analytics in
  Page.main_content analytics = Page.ContactAnalyticsDashboard /\
  Header.menu_items isImporting analytics = Header.menu_items isImporting s /\
  Page.table_props analytics = Page.table_props s /\
  Page.main_content back = Page.ContactTable (Page.table_props s) /\
  (Page.viewMode s = "table" -> back = s).
Proof.
  destruct s as [v c m sel r]. simpl.
  repeat split. intros ->. reflexivity.
Qed.

Lemma view_round_trip_witness :
  state_after (Page.handle Samples.env_ok Page.ClickList)
    (state_after (Page.handle Samples.env_ok Page.ClickAnalytics)
       Samples.two_selected)
  = Samples.two_selected.
Proof.
  apply (proj2 (proj2 (proj2 (proj2
           (view_round_trip Samples.env_ok false Samples.two_selected))))).
  reflexivity.
Defined.

(** X12.  In every reachable state one of the two view buttons, and only
    one, is drawn as selected: the one of the presentation being shown. *)
Theorem one_view_button_selected (s : Page.State) :
  Page.reachable s ->
  (Header.list_button_variant s = "secondary" /\
   Header.analytics_button_variant s = "ghost" /\
   Page.main_content s = Page.ContactTable (Page.table_props s))
  \/
  (Header.list_button_variant s = "ghost" /\
   Header.analytics_button_variant s = "secondary" /\
   Page.main_content s = Page.ContactAnalyticsDashboard).
Proof.
  intros Hreach.
  unfold Header.list_button_variant, Header.analytics_button_variant,
    Page.main_content.
  destruct (reachable_viewMode s Hreach) as [E|E]; rewrite E;
    [left|right]; repeat split.
Qed.

Lemma one_view_button_selected_witness :
  Header.list_button_variant Page.initial = "secondary" /\
  Header.analytics_button_variant Page.initial = "ghost".
Proof.
  destruct (one_view_button_selected Page.initial Page.reach_initial)
    as [(Hl & Ha & _)|(Hl & _)].
  - split; [exact Hl|exact Ha].
  - discriminate Hl.
Defined.

(** ** The Delete Selected item *)

Lemma menu_delete_item (isImporting : bool) (s : Page.State) (n : nat) :
  In (Header.DeleteSelectedItem n) (Header.menu_items isImporting s) <->
  Page.selectedContacts s <> [] /\ n = length (Page.selectedContacts s).
Proof.
  unfold Header.menu_items.
  destruct (Page.selectedContacts s) as [|i ids]; simpl.
  - split.
    + intros [H|[H|[H|[]]]]; discriminate.
    + intros [H _]. congruence.
  - split.
    + intros [H|[H|[H|[H|[]]]]]; try discriminate.
      inversion H. split; [discriminate|reflexivity].
    + intros [_ ->]. auto.
Qed.

(** X13.  The menu offers Delete Selected exactly when something is
    selected, with the number of selected contacts.  After a delete that
    went through the item is gone and the table is handed an empty
    selection and the next refresh trigger; after one that did not, the
    menu and the table's props are as before. *)
Theorem delete_item_follows_selection (env : Page.Env) (isImporting : bool)
  (s : Page.State) :
  let after := state_after (Page.handle env Page.ClickDeleteSelected) s in
  (forall n, In (Header.DeleteSelectedItem n) (Header.menu_items isImporting s)
             <-> Page.selectedContacts s <> [] /\
                 n = length (Page.selectedContacts s)) /\
  (Page.selectedContacts s <> [] ->
   if Page.delete_reports_no_error env (Page.selectedContacts s)
      && Page.audit_completes env (Page.selectedContacts s)
   then Header.menu_items isImporting after
          = [Header.ColumnsItem; Header.ImportItem isImporting;
             Header.ExportItem] /\
        Page.table_props after
          = Page.mkProps (Page.showColumnCustomizer s) (Page.showModal s) []
                         (Page.refreshTrigger s + 1)
   else Header.menu_items isImporting after = Header.menu_items isImporting s /\
        Page.table_props after = Page.table_props s).
Proof.
  intros after. split; [intros n; apply menu_delete_item|].
  intros Hne. unfold after, state_after. cbn [Page.handle].
  rewrite (handleBulkDelete_run env s Hne).
  destruct (Page.delete_reports_no_error env (Page.selectedContacts s));
    [destruct (Page.audit_completes env (Page.selectedContacts s))|];
    simpl; split; reflexivity.
Qed.

Lemma delete_item_follows_selection_witness :
  Header.menu_items false
    (state_after (Page.handle Samples.env_ok Page.ClickDeleteSelected)
       Samples.two_selected)
  = [Header.ColumnsItem; Header.ImportItem false; Header.ExportItem].
Proof.
  apply (proj2 (delete_item_follows_selection Samples.env_ok false
                  Samples.two_selected) ltac:(simpl; discriminate)).
Defined.

(** ** What no handler does *)

(** X14.  None of the handlers that set the page state (the two view
    buttons, Columns, Add Contact, Delete Selected, [onRefresh] and the
    setters handed to the table) throws, whatever the backend and the
    audit logger do, and one run of any of them leaves the refresh trigger
    as it is or raises it by one. *)
Theorem handlers_complete (env : Page.Env) (ev : Page.Event)
  (s : Page.State) :
  completion_of (Page.handle env ev) s = Normal tt /\
  Page.refreshTrigger s
    <= Page.refreshTrigger (state_after (Page.handle env ev) s)
    <= Page.refreshTrigger s + 1.
Proof.
  destruct ev; try (simpl; split; [reflexivity|lia]).
  unfold completion_of, state_after. cbn [Page.handle].
  destruct (Page.selectedContacts s) as [|i ids] eqn:Esel.
  - rewrite (handleBulkDelete_guard env s Esel). simpl. split; [reflexivity|lia].
  - assert (Hne : Page.selectedContacts s <> []) by congruence.
    rewrite (handleBulkDelete_run env s Hne).
    destruct (Page.delete_reports_no_error env (Page.selectedContacts s));
      [destruct (Page.audit_completes env (Page.selectedContacts s))|];
      simpl; split; try reflexivity; lia.
Qed.

(** X15.  The bulk delete is written to the audit log only after the
    delete call reported no error, once, with the ids and the number of
    ids of the delete request; the delete request is the first thing the
    handler sends. *)
Theorem audit_follows_delete (env : Page.Env) (s : Page.State) :
  Page.selectedContacts s <> [] ->
  let ids := Page.selectedContacts s in
  let trace := trace_of (Page.handleBulkDelete env) s in
  hd_error trace = Some (BackendDelete "contacts" "id" ids) /\
  filter Terms.is_audit trace =
    if Page.delete_reports_no_error env ids
    then [AuditBulkDelete "contacts" (length ids) ids]
    else [].
Proof.
  intros Hne ids trace. unfold trace, trace_of.
  rewrite (handleBulkDelete_run env s Hne). fold ids.
  destruct (Page.delete_reports_no_error env ids);
    [destruct (Page.audit_completes env ids)|]; simpl; split; reflexivity.
Qed.

Lemma audit_follows_delete_witness :
  filter Terms.is_audit
    (trace_of (Page.handleBulkDelete Samples.env_delete_error)
       Samples.two_selected) = [].
Proof.
  apply (proj2 (audit_follows_delete Samples.env_delete_error
                  Samples.two_selected ltac:(simpl; discriminate))).
Defined.

(** ** Importing a CSV file *)

(** X16.  Without a chosen file the change handler of the file input does
    nothing.  With one it runs the import on the first file and then
    empties the input's value, whether the import completed or threw, and
    completes normally itself; the import's own effects are kept. *)
Theorem import_always_clears_input
  (handleImport : string -> M Header.ImportState unit)
  (s : Header.ImportState) :
  match Header.first_file (Header.target s) with
  | None => run (Header.handleImportCSV handleImport) s = (Normal tt, s, [])
  | Some file =>
      run (Header.handleImportCSV handleImport) s =
      (Normal tt,
       Header.mkImport
         (Header.page (state_after (handleImport file) s))
         (Header.mkInput
            (Header.files (Header.target (state_after (handleImport file) s)))
            ""),
       trace_of (handleImport file) s)
  end.
Proof.
  destruct (Header.first_file (Header.target s)) as [file|] eqn:E;
    unfold run, Header.handleImportCSV, state_after, trace_of, run;
    unfold bind at 1; unfold get; cbv beta; rewrite E; [|reflexivity].
  unfold try_catch, bind, Header.set_value, modify.
  destruct (handleImport file s []) as [[[[]|e] s1] tr]; reflexivity.
Qed.

Example import_failure_is_swallowed :
  run (Header.handleImportCSV MoreSamples.import_fails) MoreSamples.picked
  = (Normal tt,
     Header.mkImport Page.initial
       (Header.mkInput (Some ["contacts.csv"]) ""),
     [Toast "Import Error" "contacts.csv" (Some "destructive")]).
Proof. reflexivity. Qed.

Example import_without_file :
  run (Header.handleImportCSV MoreSamples.import_fails)
      MoreSamples.nothing_picked
  = (Normal tt, MoreSamples.nothing_picked, []).
Proof. reflexivity. Qed.

Example rejected_delete_keeps_selection :
  run (Page.handleBulkDelete MoreSamples.env_rejects) Samples.two_selected
  = (Normal tt, Samples.two_selected,
     [BackendDelete "contacts" "id" ["c1"; "c2"]; Page.error_toast]).
Proof. reflexivity. Qed.
